(** * rlt_windows_sentinel: the command unit, its text decoder, its reporter
      and the batch runner

    A shallow embedding of [src/models/command.py] and [src/main.py].

    - Python values that can be [None] are [option]s; an operation that can
      raise returns a [result].
    - [bytes] is a list of [byte]; [str] is a list of [ascii] (every string
      the program builds from process output is ASCII).
    - A [datetime] is a count of microseconds on the wall clock, a
      [timedelta] the difference of two of them, and a float is the
      rational that the IEEE 754 double denotes: [round64] rounds to the
      nearest double where the code's arithmetic does.
    - The asyncio event loop is a labelled transition system: an event is
      one resumption of one unit's coroutine, the loop noticing that a
      process has exited, or a step of the teardown that [asyncio.run]
      begins once [run()] has finished. *)

From Stdlib Require Import ZArith QArith Qround Qabs Qpower Lia Lqa.
From Stdlib Require Import Strings.Byte Strings.Ascii Strings.String DecimalString.
From stdpp Require Import base list.

(** ** Python results *)

(** [SpawnError] stands for whatever [create_subprocess_shell] raises
    when the process cannot be created (an OSError when the shell cannot
    be started, a ValueError for a NUL in the command line): [func]
    handles none of them, and nothing looks at the class. *)
Inductive exn : Type :=
| TypeError
| AttributeError
| SpawnError
| CancelledError.

Inductive result (A : Type) : Type :=
| Ok (a : A)
| Raise (e : exn).
Arguments Ok {A} a.
Arguments Raise {A} e.

#[global] Instance result_ret : MRet result := fun A a => Ok a.
#[global] Instance result_bind : MBind result := fun A B k r =>
  match r with
  | Ok a => k a
  | Raise e => Raise e
  end.

#[global] Instance result_fmap : FMap result := fun A B f r =>
  match r with
  | Ok a => Ok (f a)
  | Raise e => Raise e
  end.

Definition returns {A} (r : result A) : Prop := exists a, r = Ok a.

(** ** Strings and bytes *)

Definition bytes := list byte.
Definition str := list ascii.

Definition lit (s : string) : str := list_ascii_of_string s.

Definition printable (c : ascii) : Prop :=
  (32 <= N_of_ascii c <= 126)%N.

Definition printableb (c : ascii) : bool :=
  ((32 <=? N_of_ascii c) && (N_of_ascii c <=? 126))%N.

Module PyStr.
Section Replace.
Context {A : Type} (eqb : A -> A -> bool).

Fixpoint startswith (prefix s : list A) : bool :=
  match prefix, s with
  | [], _ => true
  | _ :: _, [] => false
  | p :: prefix', c :: s' => eqb p c && startswith prefix' s'
  end.

(** Scan from the left; [skip] counts the characters of a match that are
    still to be dropped. *)
Fixpoint replace_from (old new : list A) (skip : nat) (s : list A) : list A :=
  match s with
  | [] => []
  | c :: s' =>
      match skip with
      | S k => replace_from old new k s'
      | O =>
          if startswith old s
          then new ++ replace_from old new (length old - 1) s'
          else c :: replace_from old new 0 s'
      end
  end.

(** [s.replace(old, new)]: every leftmost non-overlapping occurrence, in
    one pass.  An empty [old] matches before every character and at the
    end. *)
Definition replace (old new s : list A) : list A :=
  match old with
  | [] => new ++ flat_map (fun c => c :: new) s
  | _ :: _ => replace_from old new 0 s
  end.
End Replace.

(** [s[start:stop]] for [start >= 0] and a negative [stop = -back]. *)
Definition slice {A} (start back : nat) (s : list A) : list A :=
  drop start (take (length s - back) s).
End PyStr.

Definition bytes_replace : bytes -> bytes -> bytes -> bytes :=
  PyStr.replace Byte.eqb.
Definition str_replace : str -> str -> str -> str :=
  PyStr.replace Ascii.eqb.

(** *** [repr] of a bytes object (CPython's [PyBytes_Repr] with smart
    quotes, which is what [str(b)] calls). *)

Definition hexdigit (n : N) : ascii :=
  nth (N.to_nat n) (lit "0123456789abcdef") "0"%char.

Definition repr_quote (b : bytes) : byte :=
  if existsb (Byte.eqb x27) b && negb (existsb (Byte.eqb x22) b)
  then x22 else x27.

Definition repr_byte (quote c : byte) : str :=
  if Byte.eqb c quote || Byte.eqb c x5c then ["\"%char; ascii_of_byte c]
  else if Byte.eqb c x09 then lit "\t"
  else if Byte.eqb c x0a then lit "\n"
  else if Byte.eqb c x0d then lit "\r"
  else if ((Byte.to_N c <? 32) || (127 <=? Byte.to_N c))%N
  then ["\"%char; "x"%char;
        hexdigit (N.shiftr (N.land (Byte.to_N c) 240) 4);
        hexdigit (N.land (Byte.to_N c) 15)]
  else [ascii_of_byte c].

Definition repr_body (quote : byte) (b : bytes) : str :=
  flat_map (repr_byte quote) b.

Definition bytes_repr (b : bytes) : str :=
  let quote := repr_quote b in
  "b"%char :: ascii_of_byte quote :: repr_body quote b ++ [ascii_of_byte quote].

(** ** The text decoder *)

Inductive pyval : Type :=
| PyNone
| PyBytes (b : bytes).

Definition CR : ascii := ascii_of_byte x0d.
Definition LF : ascii := ascii_of_byte x0a.
Definition NUL : ascii := ascii_of_byte x00.

Definition strip_nul (b : bytes) : bytes := bytes_replace [x00] [] b.

(** The two [replace] lines of [bytes_to_string], applied to the sliced
    repr. *)
Definition normalize (value : str) : str :=
  let value := str_replace [CR] [] value in
  str_replace (lit "\n") (lit " ") (str_replace (lit "\r") [] value).

(** [None] has no [replace] attribute. *)
Definition bytes_to_string (_bytes : pyval) : result str :=
  match _bytes with
  | PyNone => Raise AttributeError
  | PyBytes b =>
      let value :=
        str_replace [CR] [] (PyStr.slice 2 1 (bytes_repr (strip_nul b))) in
      let value :=
        str_replace (lit "\n") (lit " ") (str_replace (lit "\r") [] value) in
      Ok value
  end.

(** The two-character passes that [normalize] ends with. *)
Definition drop_cr_escapes : str -> str := str_replace ["\"; "r"]%char [].
Definition lf_escapes_to_space : str -> str :=
  str_replace ["\"; "n"]%char [" "%char].

(** What one segment of the input decodes to, under the quote that the
    repr of the whole input uses. *)
Definition decode_with (quote : byte) (b : bytes) : str :=
  normalize (repr_body quote (strip_nul b)).

Definition bytes_of_string (s : string) : bytes := list_byte_of_string s.


(** ** Formatting *)

Definition datetime := Z.
Definition timedelta := Z.

(** The two built-in renderings the display line relies on and that are
    not spelled out here: [str(d)] of a datetime and [format(x, width)] of
    a float.  Both are total. *)
Class Builtins := {
  str_datetime : datetime -> str;
  format_float : Q -> nat -> str
}.

Definition str_int (z : Z) : str :=
  lit (DecimalString.NilZero.string_of_int (Z.to_int z)).

Definition ljust (width : nat) (s : str) : str :=
  s ++ replicate (width - length s) " "%char.
Definition rjust (width : nat) (s : str) : str :=
  replicate (width - length s) " "%char ++ s.

(** [format(s, "60")] on a str pads on the right, [format(n, "6")] on an
    int pads on the left, [format(None, "3")] is a TypeError. *)
Definition format_str (s : str) (width : nat) : str := ljust width s.
Definition format_int (z : Z) (width : nat) : str := rjust width (str_int z).
Definition format_opt_int (o : option Z) (width : nat) : result str :=
  match o with
  | Some z => Ok (format_int z width)
  | None => Raise TypeError
  end.

Definition str_opt_datetime `{Builtins} (o : option datetime) : str :=
  match o with
  | Some d => str_datetime d
  | None => lit "None"
  end.
Definition str_opt_str (o : option str) : str :=
  match o with
  | Some s => s
  | None => lit "None"
  end.

(** [a - b] on two attributes that hold a datetime or [None]. *)
Definition datetime_sub (a b : option datetime) : result timedelta :=
  match a, b with
  | Some x, Some y => Ok (x - y)%Z
  | _, _ => Raise TypeError
  end.

(** *** Floats

    [round64 q] is the double nearest to [q], ties to even: the mantissa
    is [q] scaled into [[2^52, 2^53]] and rounded to an integer.  Overflow,
    subnormal numbers and the negative zero are left out: the seconds
    between two datetimes are 0 or between 1e-6 and 3.2e11 in magnitude,
    and a zero that arises here is positive. *)

Definition Qpow2 (e : Z) : Q := 2 ^ e.

(** The [e] with [2^e <= |q| < 2^(e+1)], for [q] other than 0. *)
Definition binade (q : Q) : Z :=
  let e := (Z.log2 (Z.abs (Qnum q)) - Z.log2 (Zpos (Qden q)))%Z in
  if Qle_bool (Qpow2 e) (Qabs q) then e else (e - 1)%Z.

Definition round_half_even (q : Q) : Z :=
  let f := Qfloor q in
  match Qcompare (q - inject_Z f) (1 # 2) with
  | Lt => f
  | Gt => (f + 1)%Z
  | Eq => if Z.even f then f else (f + 1)%Z
  end.

Definition round64 (q : Q) : Q :=
  if Qeq_bool q 0 then 0
  else let e := (binade q - 52)%Z in
       inject_Z (round_half_even (q / Qpow2 e)) * Qpow2 e.

(** [d.total_seconds()]: the true division of the microseconds, an int,
    by 10**6, which Python rounds correctly to a double. *)
Definition total_seconds (d : timedelta) : Q := round64 (d # 1000000).

(** [divmod(x, y)[0]] on doubles: CPython takes [fmod(x, y)], which is
    exact, subtracts it and divides by [y]; for [y = 60] and [|x| < 2^55]
    both steps are exact as well, so the result is the floor of the
    quotient of the two doubles, as a double. *)
Definition divmod_fst (x y : Q) : Q := inject_Z (Qfloor (x / y)).

(** ** The command unit *)

(** What can be passed for a stream of the child process, as
    [asyncio.subprocess] takes it: one of its three constants, or an open
    file. *)
Inductive stream : Type :=
| PIPE
| DEVNULL
| STDOUT
| File (fd : nat).

(** [target if target is not None else asyncio.subprocess.PIPE]. *)
Definition stream_arg (target : option stream) : stream :=
  match target with
  | Some t => t
  | None => PIPE
  end.

Record Process := mkProcess {
  Process_pid : Z;
  Process_returncode : option Z
}.

Record Command := mkCommand {
  _stdout_target : option stream;
  _stderr_target : option stream;
  _process : option Process;
  cmd : str;
  stdout : option str;
  stderr : option str;
  start_time : option datetime;
  end_time : option datetime
}.

Definition Command_init (cmd : str) (stderr_target stdout_target : option stream)
  : Command :=
  {| _stdout_target := stdout_target; _stderr_target := stderr_target;
     _process := None; cmd := cmd; stdout := None; stderr := None;
     start_time := None; end_time := None |}.

Definition set_process (p : Process) (c : Command) : Command :=
  {| _stdout_target := _stdout_target c; _stderr_target := _stderr_target c;
     _process := Some p; cmd := cmd c; stdout := stdout c; stderr := stderr c;
     start_time := start_time c; end_time := end_time c |}.
Definition set_streams (out err : str) (c : Command) : Command :=
  {| _stdout_target := _stdout_target c; _stderr_target := _stderr_target c;
     _process := _process c; cmd := cmd c; stdout := Some out; stderr := Some err;
     start_time := start_time c; end_time := end_time c |}.
Definition set_start_time (t : datetime) (c : Command) : Command :=
  {| _stdout_target := _stdout_target c; _stderr_target := _stderr_target c;
     _process := _process c; cmd := cmd c; stdout := stdout c; stderr := stderr c;
     start_time := Some t; end_time := end_time c |}.
Definition set_end_time (t : datetime) (c : Command) : Command :=
  {| _stdout_target := _stdout_target c; _stderr_target := _stderr_target c;
     _process := _process c; cmd := cmd c; stdout := stdout c; stderr := stderr c;
     start_time := start_time c; end_time := Some t |}.

(** [hasattr(None, "returncode")] is false; a [Process] has both
    attributes, and its [returncode] is [None] while it runs. *)
Definition return_code (c : Command) : result (option Z) :=
  match _process c with
  | Some p => Ok (Process_returncode p)
  | None => Ok None
  end.

Definition pid (c : Command) : result (option Z) :=
  match _process c with
  | Some p => Ok (Some (Process_pid p))
  | None => Ok None
  end.

Definition time_delta (c : Command) : result (Q * Q) :=
  d ← datetime_sub (end_time c) (start_time c);
  let seconds := total_seconds d in
  let minutes := divmod_fst seconds 60 in
  Ok (minutes, seconds).

Definition Command_str `{Builtins} (c : Command) : result str :=
  p ← pid c;
  match p with
  | None => Ok (format_str (cmd c) 60 ++ lit " [None] [None]")
  | Some p =>
      rc ← return_code c;
      rc ← format_opt_int rc 3;
      minutes ← fst <$> time_delta c;
      seconds ← snd <$> time_delta c;
      Ok (format_str (cmd c) 60 ++ lit " [" ++ format_int p 6 ++ lit "] ["
          ++ rc ++ lit "] "
          ++ lit "Start:" ++ str_opt_datetime (start_time c) ++ lit " "
          ++ lit "End:" ++ str_opt_datetime (end_time c) ++ lit " "
          ++ lit "Elapsed:" ++ format_float minutes 6 ++ lit "m "
          ++ format_float seconds 8 ++ lit "s")
  end.

(** The lifecycle states of the specification, read off the attributes. *)
Definition Created (c : Command) : Prop :=
  _process c = None /\ stdout c = None /\ stderr c = None /\
  start_time c = None /\ end_time c = None.

Definition Completed (c : Command) : Prop :=
  (exists p rc, _process c = Some p /\ Process_returncode p = Some rc) /\
  is_Some (stdout c) /\ is_Some (stderr c) /\
  is_Some (start_time c) /\ is_Some (end_time c).

(** ** The outcome reporter *)

Inductive level : Type := INFO | ERROR.
Definition log_record : Type := level * str.

(** The logger is configured at level INFO, so both calls append a record. *)
Definition write_log `{Builtins} (command : Command) (LOG : list log_record)
  : result (list log_record) :=
  rc ← return_code command;
  if decide (rc = Some 0%Z)
  then line ← Command_str command; Ok (LOG ++ [(INFO, line)])
  else line ← Command_str command;
       Ok (LOG ++ [(ERROR, line ++ str_opt_str (stderr command)
                                 ++ str_opt_str (stdout command))]).

(** ** One unit's coroutine ([Command.__call__]) *)

(** Where the coroutine [func] of a unit stands: not started, suspended in
    [create_subprocess_shell], suspended in [communicate], or finished. *)
Inductive pc : Type :=
| PcInit
| PcAwaitSpawn
| PcAwaitExit
| PcReturned
| PcRaised (e : exn)
| PcCancelled.

Definition pc_done (p : pc) : bool :=
  match p with
  | PcReturned | PcRaised _ | PcCancelled => true
  | PcInit | PcAwaitSpawn | PcAwaitExit => false
  end.

Definition pc_returned (p : pc) : bool :=
  match p with
  | PcReturned => true
  | _ => false
  end.

(** [process.communicate()]: the bytes of a stream that was opened as a
    pipe, [None] for a stream that was sent anywhere else. *)
Definition communicate (c : Command) (out err : bytes) : pyval * pyval :=
  (match stream_arg (_stdout_target c) with PIPE => PyBytes out | _ => PyNone end,
   match stream_arg (_stderr_target c) with PIPE => PyBytes err | _ => PyNone end).

Definition parse_streams_on_complete (streams : pyval * pyval)
  : result (str * str) :=
  out ← bytes_to_string streams.1;
  err ← bytes_to_string streams.2;
  Ok (out, err).

(** The process object that [self._process] refers to learns its exit
    status when the process exits. *)
Definition process_exited (rc : Z) (c : Command) : Command :=
  match _process c with
  | Some p => set_process (mkProcess (Process_pid p) (Some rc)) c
  | None => c
  end.

(** [func] from the return of [parse_streams_on_complete] to its end.  The
    unit keeps the attributes assigned before a raise. *)
Definition func_finish `{Builtins} (c : Command) (streams : pyval * pyval)
    (now : datetime) (LOG : list log_record)
  : Command * result (list log_record) :=
  match parse_streams_on_complete streams with
  | Raise e => (c, Raise e)
  | Ok (out, err) =>
      let c := set_end_time now (set_streams out err c) in
      (c, write_log c LOG)
  end.

(** ** The event loop under [run] and [main] *)

Record task := mkTask {
  task_cmd : Command;
  task_pc : pc
}.

(** [gather] is the future that [run] awaits: [None] while pending. *)
Record loop := mkLoop {
  tasks : list task;
  gather : option (result ());
  LOG : list log_record;
  closed : bool
}.

(** The events of the loop.
    - [EvStart]: the coroutine of a unit runs up to the spawn.
    - [EvSpawned], [EvSpawnFailed]: [create_subprocess_shell] returns a
      process, or raises.
    - [EvProcessExited]: the loop notices that the process of a unit has
      exited, and the process object gets its exit status; the coroutine
      of the unit is still suspended in [communicate], or was cancelled
      there.
    - [EvExited]: [communicate] returns and the coroutine runs to its
      end; [rc] is the exit status of the process, which the loop may
      have noticed before or notices now.
    - [EvShutdown]: [run] is over and [asyncio.run] begins its teardown:
      it asks every pending coroutine to cancel, and from then on none of
      them is resumed normally.
    - [EvCancelled]: the cancellation of one coroutine has gone through.
      Nothing says that it ever does: a coroutine cancelled inside
      [create_subprocess_shell] first waits for its process to die. *)
Inductive event : Type :=
| EvStart (i : nat) (now : datetime)
| EvSpawned (i : nat) (pid : Z)
| EvSpawnFailed (i : nat)
| EvProcessExited (i : nat) (rc : Z)
| EvExited (i : nat) (rc : Z) (out err : bytes) (now : datetime)
| EvShutdown
| EvCancelled (i : nat).

(** [asyncio.gather] without [return_exceptions]: the first child that
    raises resolves the future with its exception at once; otherwise the
    future resolves when the last child has returned. *)
Definition settle (ts : list task) (g : option (result ()))
    (outcome : result ()) : option (result ()) :=
  match g with
  | Some r => Some r
  | None =>
      match outcome with
      | Raise e => Some (Raise e)
      | Ok _ =>
          if forallb (fun t => pc_returned (task_pc t)) ts
          then Some (Ok ()) else None
      end
  end.

Definition finish_task (i : nat) (c : Command) (outcome : result ())
    (LOG' : list log_record) (s : loop) : loop :=
  let p := match outcome with Ok _ => PcReturned | Raise e => PcRaised e end in
  let ts := <[i := mkTask c p]> (tasks s) in
  {| tasks := ts; gather := settle ts (gather s) outcome;
     LOG := LOG'; closed := false |}.

Definition set_task (i : nat) (t : task) (s : loop) : loop :=
  {| tasks := <[i := t]> (tasks s); gather := gather s;
     LOG := LOG s; closed := closed s |}.

(** A pending coroutine that is cancelled ends without touching its
    unit; a finished one is left alone. *)
Definition cancel (t : task) : task :=
  if pc_done (task_pc t) then t else mkTask (task_cmd t) PcCancelled.

(** Whether [rc] can be the exit status of the process of a unit: any
    status while the loop has noticed none, the noticed one afterwards. *)
Definition exit_status_agrees (rc : Z) (c : Command) : bool :=
  match _process c with
  | Some p =>
      match Process_returncode p with
      | Some rc' => bool_decide (rc' = rc)
      | None => true
      end
  | None => true
  end.

(** One event.  The events of different units may interleave in any way,
    which covers every schedule the loop can follow; [closed] says that
    the teardown has begun. *)
Definition step `{Builtins} (ev : event) (s : loop) : option loop :=
  match ev with
  | EvProcessExited i rc =>
      t ← tasks s !! i;
      match task_pc t with
      | PcAwaitExit | PcCancelled =>
          p ← _process (task_cmd t);
          match Process_returncode p with
          | None =>
              Some (set_task i (mkTask (process_exited rc (task_cmd t)) (task_pc t)) s)
          | Some _ => None
          end
      | _ => None
      end
  | EvCancelled i =>
      if closed s then
        t ← tasks s !! i;
        if pc_done (task_pc t) then None else Some (set_task i (cancel t) s)
      else None
  | _ =>
  if closed s then None else
  match ev with
  | EvProcessExited _ _ | EvCancelled _ => None
  | EvStart i now =>
      t ← tasks s !! i;
      match task_pc t with
      | PcInit =>
          Some (set_task i (mkTask (set_start_time now (task_cmd t)) PcAwaitSpawn) s)
      | _ => None
      end
  | EvSpawned i pid =>
      t ← tasks s !! i;
      match task_pc t with
      | PcAwaitSpawn =>
          Some (set_task i
                  (mkTask (set_process (mkProcess pid None) (task_cmd t)) PcAwaitExit) s)
      | _ => None
      end
  | EvSpawnFailed i =>
      t ← tasks s !! i;
      match task_pc t with
      | PcAwaitSpawn => Some (finish_task i (task_cmd t) (Raise SpawnError) (LOG s) s)
      | _ => None
      end
  | EvExited i rc out err now =>
      t ← tasks s !! i;
      match task_pc t with
      | PcAwaitExit =>
          if exit_status_agrees rc (task_cmd t) then
            let c := process_exited rc (task_cmd t) in
            match func_finish c (communicate c out err) now (LOG s) with
            | (c, Ok LOG') => Some (finish_task i c (Ok ()) LOG' s)
            | (c, Raise e) => Some (finish_task i c (Raise e) (LOG s) s)
            end
          else None
      | _ => None
      end
  | EvShutdown =>
      match gather s with
      | Some _ =>
          Some {| tasks := tasks s; gather := gather s;
                  LOG := LOG s; closed := true |}
      | None => None
      end
  end
  end.

Fixpoint exec `{Builtins} (evs : list event) (s : loop) : option loop :=
  match evs with
  | [] => Some s
  | ev :: evs' => s' ← step ev s; exec evs' s'
  end.

(** [run()] with its list of command lines as a parameter: one
    [Command(line)] per line, then [gather] over their coroutines. *)
Definition run_init (lines : list str) : loop :=
  {| tasks := (fun line => mkTask (Command_init line None None) PcInit) <$> lines;
     gather := match lines with [] => Some (Ok ()) | _ :: _ => None end;
     LOG := []; closed := false |}.

Definition main_lines : list str :=
  [lit "cleanmgr.exe /sagerun:1"; lit "wuauclt /detectnow /updatenow";
   lit "cipher.exe /w:E"; lit "cipher.exe /w:C"; lit "sfc /scannow"].

(** The units whose completion the events of a run report, in order. *)
Definition completion_order (evs : list event) : list nat :=
  omap (fun ev => match ev with EvExited i _ _ _ _ => Some i | _ => None end) evs.

(** A stand-in for the two built-in renderings, for running examples:
    the microsecond count, and the float as a fraction. *)
Definition str_Q (x : Q) : str :=
  str_int (Qnum x) ++ lit "/" ++ str_int (Zpos (Qden x)).

#[local] Instance example_builtins : Builtins :=
  {| str_datetime := fun d => str_int d;
     format_float := fun x width => rjust width (str_Q x) |}.


(** ** Invariants of a run *)

Definition Unspawned (c : Command) : Prop :=
  _process c = None /\ stdout c = None /\ stderr c = None /\ end_time c = None.

(** Spawned, the coroutine still suspended in [communicate]: the process
    runs, or has exited already. *)
Definition Awaiting (c : Command) : Prop :=
  is_Some (_process c) /\
  stdout c = None /\ stderr c = None /\
  is_Some (start_time c) /\ end_time c = None.

(** Both streams are captured through pipes, as for every unit that [run]
    builds. *)
Definition piped (c : Command) : Prop :=
  _stdout_target c = None /\ _stderr_target c = None.

Definition task_inv (t : task) : Prop :=
  piped (task_cmd t) /\
  match task_pc t with
  | PcInit => Created (task_cmd t)
  | PcAwaitSpawn => Unspawned (task_cmd t) /\ is_Some (start_time (task_cmd t))
  | PcAwaitExit => Awaiting (task_cmd t)
  | PcReturned => Completed (task_cmd t)
  | PcRaised e => e = SpawnError /\ Unspawned (task_cmd t)
  | PcCancelled => Unspawned (task_cmd t) \/ Awaiting (task_cmd t)
  end.

Definition loop_inv (s : loop) : Prop :=
  Forall task_inv (tasks s) /\
  (gather s = Some (Ok ()) -> Forall (fun t => task_pc t = PcReturned) (tasks s)) /\
  (gather s = None -> Forall (fun t => forall e, task_pc t <> PcRaised e) (tasks s)) /\
  (forall e, gather s = Some (Raise e) -> e = SpawnError) /\
  (Forall (fun t => task_pc t = PcReturned) (tasks s) -> is_Some (gather s)).

(** The coroutine states of the units, in batch order. *)
Definition pcs (s : loop) : list pc := task_pc <$> tasks s.

(** No unit has raised so far. *)
Definition no_raise (s : loop) : Prop := forall e, gather s <> Some (Raise e).

(** A run in which every spawn succeeds and the units complete in the
    order [order]: all coroutines start, all processes are spawned, then
    the processes exit one by one. *)
Definition schedule (n : nat) (order : list nat) : list event :=
  ((fun i => EvStart i (Z.of_nat i)) <$> seq 0 n)
  ++ ((fun i => EvSpawned i (1000 + Z.of_nat i)%Z) <$> seq 0 n)
  ++ ((fun i => EvExited i 0%Z [] [] (60000000 + Z.of_nat i)%Z) <$> order).

Definition mark {A} (v : A) (l : list nat) (acc : list A) : list A :=
  foldl (fun acc i => <[i := v]> acc) acc l.

(** ** Example units and runs *)

(** A unit that exited with status 1 after 61.5 seconds, and one still
    running. *)
Definition unit_failed : Command :=
  {| _stdout_target := None; _stderr_target := None;
     _process := Some (mkProcess 4242 (Some 1%Z));
     cmd := lit "sfc /scannow"; stdout := Some (lit "scanning ");
     stderr := Some (lit "boom");
     start_time := Some 1000000%Z; end_time := Some 62500000%Z |}.

Definition unit_running : Command :=
  {| _stdout_target := None; _stderr_target := None;
     _process := Some (mkProcess 4242 None);
     cmd := lit "sfc /scannow"; stdout := None; stderr := None;
     start_time := Some 1000000%Z; end_time := None |}.


(** The batch of [main], the spawn of the first unit failing in the first
    step of its coroutine: the other four coroutines have started and are
    suspended in [create_subprocess_shell] when [gather] raises. *)
Definition first_spawn_fails : list event :=
  [EvStart 0 0%Z; EvSpawnFailed 0; EvStart 1 1%Z; EvStart 2 2%Z; EvStart 3 3%Z;
   EvStart 4 4%Z].

(** The batch of [main], the spawn of the fourth unit failing. *)
Definition fourth_spawn_fails : list event :=
  [EvStart 0 0%Z; EvStart 1 1%Z; EvStart 2 2%Z; EvStart 3 3%Z; EvSpawnFailed 3;
   EvStart 4 4%Z].

(** The batch of [main]: the first three units are running and the
    fourth is about to learn whether its spawn succeeded. *)
Definition fourth_spawn_pending : list event :=
  [EvStart 0 0%Z; EvStart 1 1%Z; EvStart 2 2%Z; EvStart 3 3%Z; EvStart 4 4%Z;
   EvSpawned 0 4000%Z; EvSpawned 1 4001%Z; EvSpawned 2 4002%Z].

(** ** Observations on events and runs *)

(** The unit whose coroutine an event resumes. *)
Definition event_unit (ev : event) : option nat :=
  match ev with
  | EvStart i _ | EvSpawned i _ | EvSpawnFailed i | EvProcessExited i _
  | EvExited i _ _ _ _ | EvCancelled i => Some i
  | EvShutdown => None
  end.



(** The exit status the process object of a unit holds. *)
Definition process_returncode (c : Command) : option Z :=
  _process c ≫= Process_returncode.

(** The loop has noticed no exit of a process whose coroutine is suspended
    in [communicate]. *)
Definition unnoticed (s : loop) : Prop :=
  Forall (fun t => task_pc t = PcAwaitExit ->
                   process_returncode (task_cmd t) = None) (tasks s).

(** The channel [write_log] picks for an exit status. *)
Definition exit_level (rc : Z) : level :=
  if decide (rc = 0%Z) then INFO else ERROR.


(** The attributes of a unit once [func] has run to its end. *)
Definition completed_unit (c : Command) (rc : Z) (out err : str)
    (now : datetime) : Command :=
  set_end_time now (set_streams out err (process_exited rc c)).

(** A loop with a single unit whose stdout was sent to the null device,
    its process running. *)
Definition redirected_loop : loop :=
  {| tasks :=
       [mkTask (set_process (mkProcess 4242 None)
                  (set_start_time 0%Z
                     (Command_init (lit "sfc /scannow") None (Some DEVNULL))))
          PcAwaitExit];
     gather := None; LOG := []; closed := false |}.

(** The batch of [main] with the first three units running, of which the
    second exits with status 0 and then the first with status 1. *)
Definition two_exits : list event :=
  fourth_spawn_pending
  ++ [EvExited 1 0%Z [x6f; x6b; x0a] [] 5000000%Z;
      EvExited 0 1%Z [] [x62; x6f; x6f; x6d] 6000000%Z].


(** * Properties *)

(** ** [replace] *)

Section ReplaceFacts.
Context {A : Type} (eqb : A -> A -> bool).
Hypothesis eqb_spec : forall a b, eqb a b = true <-> a = b.

Lemma replace_from_Forall (P : A -> Prop) old new :
  Forall P new -> forall s k, Forall P s ->
  Forall P (PyStr.replace_from eqb old new k s).
Proof.
  intros Hnew s. induction s as [|c s IH]; intros k Hs; simpl; [constructor|].
  inversion Hs as [|? ? Hc Hs']; subst.
  destruct k; [|by apply IH].
  destruct (PyStr.startswith eqb old (c :: s)).
  - apply Forall_app; split; [done | by apply IH].
  - constructor; [done | by apply IH].
Qed.

(** One-element patterns: [replace] works element by element. *)
Lemma replace1_cons x new c s :
  PyStr.replace eqb [x] new (c :: s) =
  (if eqb x c then new else [c]) ++ PyStr.replace eqb [x] new s.
Proof.
  unfold PyStr.replace. simpl. destruct (eqb x c); simpl; reflexivity.
Qed.

Lemma replace1_app x new s t :
  PyStr.replace eqb [x] new (s ++ t) =
  PyStr.replace eqb [x] new s ++ PyStr.replace eqb [x] new t.
Proof.
  induction s as [|c s IH]; [reflexivity|].
  rewrite <- app_comm_cons, !replace1_cons, IH. by rewrite app_assoc.
Qed.

Lemma replace1_absent x new s :
  Forall (fun c => c <> x) s -> PyStr.replace eqb [x] new s = s.
Proof.
  induction 1 as [|c s Hc _ IH]; [reflexivity|].
  rewrite replace1_cons, IH.
  destruct (eqb x c) eqn:E; [|reflexivity].
  apply eqb_spec in E. congruence.
Qed.

Lemma replace1_removes x s :
  Forall (fun c => c <> x) (PyStr.replace eqb [x] [] s).
Proof.
  induction s as [|c s IH]; [constructor|].
  rewrite replace1_cons. destruct (eqb x c) eqn:E; simpl; [done|].
  constructor; [|done]. intros ->.
  assert (eqb x x = true) by by apply eqb_spec. congruence.
Qed.

(** Two-element patterns. *)
Section Two.
Variables (x y : A) (new : list A).
#[local] Abbreviation R := (PyStr.replace eqb [x; y] new).

Lemma eqb_refl' a : eqb a a = true.
Proof. by apply eqb_spec. Qed.

Lemma eqb_ne a b : a <> b -> eqb a b = false.
Proof.
  intros Hne. destruct (eqb a b) eqn:E; [|reflexivity].
  apply eqb_spec in E. contradiction.
Qed.

Lemma replace2_single c : R [c] = [c].
Proof. unfold PyStr.replace. simpl. by destruct (eqb x c). Qed.

Lemma replace2_match s : R (x :: y :: s) = new ++ R s.
Proof. unfold PyStr.replace. simpl. by rewrite !eqb_refl'. Qed.

Lemma replace2_cons_ne c s : c <> x -> R (c :: s) = c :: R s.
Proof.
  intros Hne. unfold PyStr.replace. simpl.
  rewrite (eqb_ne x c) by congruence. by destruct s.
Qed.

Lemma replace2_snd_ne c d s : d <> y -> R (c :: d :: s) = c :: R (d :: s).
Proof.
  intros Hne. unfold PyStr.replace.
  change (PyStr.replace_from eqb [x; y] new 0 (c :: d :: s)) with
    (if PyStr.startswith eqb [x; y] (c :: d :: s)
     then new ++ PyStr.replace_from eqb [x; y] new 1 (d :: s)
     else c :: PyStr.replace_from eqb [x; y] new 0 (d :: s)).
  simpl PyStr.startswith.
  rewrite (eqb_ne y d) by congruence.
  by rewrite andb_false_r.
Qed.

Lemma replace2_cases c d :
  (c = x /\ d = y) \/ (forall s, R (c :: d :: s) = c :: R (d :: s)).
Proof.
  destruct (eqb x c) eqn:Ec.
  - apply eqb_spec in Ec. subst c.
    destruct (eqb y d) eqn:Ed.
    + apply eqb_spec in Ed. by left.
    + right. intros s. apply replace2_snd_ne. intros ->.
      rewrite eqb_refl' in Ed. discriminate.
  - right. intros s. apply replace2_cons_ne. intros ->.
    rewrite eqb_refl' in Ec. discriminate.
Qed.

(** No match straddles a position whose right neighbour is not [y]. *)
Lemma replace2_barrier z t s : z <> y ->
  R (s ++ z :: t) = R s ++ R (z :: t).
Proof.
  intros Hz.
  assert (H : forall n s, length s <= n -> R (s ++ z :: t) = R s ++ R (z :: t)).
  { clear s. induction n as [|n IH]; intros s Hlen.
    - destruct s; [reflexivity | simpl in Hlen; lia].
    - destruct s as [|c [|d s]]; [reflexivity | |].
      + change ([c] ++ z :: t) with (c :: z :: t).
        rewrite replace2_snd_ne by done. by rewrite replace2_single.
      + simpl in Hlen.
        change ((c :: d :: s) ++ z :: t) with (c :: d :: (s ++ z :: t)).
        destruct (replace2_cases c d) as [[-> ->]|Hm].
        * rewrite !replace2_match, IH by lia. by rewrite app_assoc.
        * rewrite !Hm.
          change (d :: s ++ z :: t) with ((d :: s) ++ z :: t).
          rewrite IH by (simpl; lia). reflexivity. }
  apply (H (length s)). lia.
Qed.
End Two.
End ReplaceFacts.

(** ** The text decoder *)

Lemma byte_eqb_spec (a b : byte) : Byte.eqb a b = true <-> a = b.
Proof. split; [apply Byte.byte_dec_bl | apply Byte.byte_dec_lb]. Qed.

Lemma printableb_spec (s : str) :
  forallb printableb s = true -> Forall printable s.
Proof.
  induction s as [|c s IH]; simpl; [constructor|].
  intros [Hc Hs]%andb_true_iff. constructor; [|by apply IH].
  unfold printableb in Hc. apply andb_true_iff in Hc as [H1 H2].
  unfold printable. split; [by apply N.leb_le | by apply N.leb_le].
Qed.

Lemma repr_quote_cases (b : bytes) : repr_quote b = x27 \/ repr_quote b = x22.
Proof. unfold repr_quote. destruct (_ && _); auto. Qed.

Lemma repr_quote_double (b : bytes) :
  repr_quote b = x22 <-> (x27 ∈ b /\ x22 ∉ b).
Proof.
  unfold repr_quote.
  assert (Hin : forall c, existsb (Byte.eqb c) b = true <-> c ∈ b).
  { intros c. rewrite existsb_exists. split.
    - intros (d & Hd & ->%byte_eqb_spec). by apply list_elem_of_In.
    - intros Hc. exists c. split; [by apply list_elem_of_In | by apply byte_eqb_spec]. }
  destruct (existsb (Byte.eqb x27) b) eqn:E1; destruct (existsb (Byte.eqb x22) b) eqn:E2;
    simpl; split; try discriminate; try done.
  - intros [_ Hn]. exfalso. apply Hn. by apply Hin.
  - intros _. split; [by apply Hin|]. intros H%Hin. congruence.
  - intros [H%Hin _]. congruence.
  - intros [H%Hin _]. congruence.
Qed.

Lemma repr_byte_printable (quote c : byte) :
  quote = x27 \/ quote = x22 -> Forall printable (repr_byte quote c).
Proof.
  intros [-> | ->]; apply printableb_spec; destruct c; vm_compute; reflexivity.
Qed.

Lemma repr_body_printable (quote : byte) (b : bytes) :
  quote = x27 \/ quote = x22 -> Forall printable (repr_body quote b).
Proof.
  intros Hq. unfold repr_body. induction b as [|c b IH]; simpl; [constructor|].
  apply Forall_app. split; [by apply repr_byte_printable | done].
Qed.

Lemma repr_body_app quote a b :
  repr_body quote (a ++ b) = repr_body quote a ++ repr_body quote b.
Proof. unfold repr_body. apply flat_map_app. Qed.

Lemma slice_repr {A} (x y z : A) (body : list A) :
  PyStr.slice 2 1 (x :: y :: body ++ [z]) = body.
Proof.
  unfold PyStr.slice.
  replace (length (x :: y :: body ++ [z]) - 1) with (length (x :: y :: body))
    by (simpl; rewrite length_app; simpl; lia).
  change (x :: y :: body ++ [z]) with ((x :: y :: body) ++ [z]).
  rewrite take_app_length. reflexivity.
Qed.

Lemma bytes_to_string_eq (b : bytes) :
  bytes_to_string (PyBytes b) = Ok (decode_with (repr_quote (strip_nul b)) b).
Proof.
  unfold bytes_to_string, decode_with, normalize, bytes_repr.
  by rewrite slice_repr.
Qed.

Lemma printable_ne (c : ascii) (s : str) :
  ~ printable c -> Forall printable s -> Forall (fun d => d <> c) s.
Proof.
  intros Hc Hs. eapply Forall_impl; [exact Hs|]. intros d Hd ->. contradiction.
Qed.

Lemma not_printable_CR : ~ printable CR.
Proof. unfold printable. vm_compute. intros [H _]. by apply H. Qed.
Lemma not_printable_LF : ~ printable LF.
Proof. unfold printable. vm_compute. intros [H _]. by apply H. Qed.
Lemma not_printable_NUL : ~ printable NUL.
Proof. unfold printable. vm_compute. intros [H _]. by apply H. Qed.

Lemma normalize_printable (s : str) :
  Forall printable s -> normalize s = lf_escapes_to_space (drop_cr_escapes s).
Proof.
  intros Hs. unfold normalize, str_replace.
  rewrite (replace1_absent Ascii.eqb Ascii.eqb_eq); [reflexivity|].
  by apply printable_ne; [apply not_printable_CR|].
Qed.

Lemma normalize_keeps_printable (s : str) :
  Forall printable s -> Forall printable (normalize s).
Proof.
  intros Hs. rewrite normalize_printable by done.
  unfold lf_escapes_to_space, drop_cr_escapes, str_replace, PyStr.replace.
  apply replace_from_Forall.
  - apply printableb_spec. reflexivity.
  - apply replace_from_Forall; [constructor | done].
Qed.

Lemma decode_with_printable quote b :
  quote = x27 \/ quote = x22 -> Forall printable (decode_with quote b).
Proof.
  intros Hq. apply normalize_keeps_printable. by apply repr_body_printable.
Qed.

Section Segments.
#[local] Open Scope char_scope.
#[local] Abbreviation Rr := drop_cr_escapes.
#[local] Abbreviation Rn := lf_escapes_to_space.

Lemma str_barrier x y new z (t s : str) : z <> y ->
  str_replace [x; y] new (s ++ z :: t) =
  str_replace [x; y] new s ++ str_replace [x; y] new (z :: t).
Proof. apply (replace2_barrier Ascii.eqb Ascii.eqb_eq). Qed.

Lemma str_snd_ne x y new c d (s : str) : d <> y ->
  str_replace [x; y] new (c :: d :: s) = c :: str_replace [x; y] new (d :: s).
Proof. apply (replace2_snd_ne Ascii.eqb Ascii.eqb_eq). Qed.

Lemma str_cons_ne x y new c (s : str) : c <> x ->
  str_replace [x; y] new (c :: s) = c :: str_replace [x; y] new s.
Proof. apply (replace2_cons_ne Ascii.eqb Ascii.eqb_eq). Qed.

Lemma str_match x y new (s : str) :
  str_replace [x; y] new (x :: y :: s) = new ++ str_replace [x; y] new s.
Proof. apply (replace2_match Ascii.eqb Ascii.eqb_eq). Qed.

Lemma pass_plain x y new (m s : str) :
  Forall (fun c => c <> x) m ->
  str_replace [x; y] new (m ++ s) = m ++ str_replace [x; y] new s.
Proof.
  induction 1 as [|c m Hc _ IH]; [reflexivity|].
  rewrite <- !app_comm_cons, str_cons_ne by done.
  by rewrite IH.
Qed.

(** A segment that opens with a backslash escape other than [\r] and
    [\n], and holds no further backslash, passes through untouched and
    splits the string for both passes. *)
Lemma passes_escape (a : ascii) (m s1 s2 : str) :
  a <> "r" -> a <> "n" -> Forall (fun c => c <> "\") (a :: m) ->
  Rn (Rr (s1 ++ "\" :: a :: m ++ s2)) =
  Rn (Rr s1) ++ "\" :: a :: m ++ Rn (Rr s2).
Proof.
  intros Hr Hn Hm.
  unfold drop_cr_escapes, lf_escapes_to_space.
  rewrite str_barrier, str_snd_ne by done.
  change (a :: m ++ s2) with ((a :: m) ++ s2).
  rewrite (pass_plain "\" "r" [] (a :: m) s2 Hm).
  rewrite <- app_comm_cons.
  rewrite str_barrier, str_snd_ne by done.
  change (a :: m ++ ?t) with ((a :: m) ++ t).
  by rewrite (pass_plain "\" "n" [" "] (a :: m) _ Hm).
Qed.

(** A single character other than a backslash, [r] and [n]. *)
Lemma passes_plain (z : ascii) (s1 s2 : str) :
  z <> "r" -> z <> "n" -> z <> "\" ->
  Rn (Rr (s1 ++ z :: s2)) = Rn (Rr s1) ++ z :: Rn (Rr s2).
Proof.
  intros Hr Hn Hb.
  unfold drop_cr_escapes, lf_escapes_to_space.
  rewrite str_barrier, str_cons_ne by done.
  by rewrite str_barrier, str_cons_ne by done.
Qed.

(** The escape of a line feed becomes one space. *)
Lemma passes_lf (s1 s2 : str) :
  Rn (Rr (s1 ++ ["\"; "n"] ++ s2)) = Rn (Rr s1) ++ [" "] ++ Rn (Rr s2).
Proof.
  unfold drop_cr_escapes, lf_escapes_to_space.
  change (s1 ++ ["\"; "n"] ++ s2) with (s1 ++ "\" :: "n" :: s2).
  rewrite str_barrier, str_snd_ne, str_cons_ne by done.
  by rewrite str_barrier, str_match by done.
Qed.

(** The escapes of a carriage return and a line feed in a row become one
    space as well. *)
Lemma passes_crlf (s1 s2 : str) :
  Rn (Rr (s1 ++ ["\"; "r"] ++ ["\"; "n"] ++ s2)) =
  Rn (Rr s1) ++ [" "] ++ Rn (Rr s2).
Proof.
  rewrite <- (passes_lf s1 s2).
  unfold drop_cr_escapes.
  change (s1 ++ ["\"; "r"] ++ ["\"; "n"] ++ s2)
    with (s1 ++ "\" :: "r" :: "\" :: "n" :: s2).
  change (s1 ++ ["\"; "n"] ++ s2) with (s1 ++ "\" :: "n" :: s2).
  rewrite !(str_barrier _ _ _ "\") by done.
  by rewrite str_match.
Qed.
End Segments.

Lemma strip_nul_app a b : strip_nul (a ++ b) = strip_nul a ++ strip_nul b.
Proof. apply replace1_app. Qed.

Lemma strip_nul_cons c b : c <> x00 -> strip_nul (c :: b) = c :: strip_nul b.
Proof.
  intros Hc. unfold strip_nul, bytes_replace. rewrite replace1_cons.
  destruct (Byte.eqb x00 c) eqn:E; [|reflexivity].
  apply byte_eqb_spec in E. congruence.
Qed.

Lemma strip_nul_no_nul b : x00 ∉ strip_nul b.
Proof.
  intros Hin.
  pose proof (replace1_removes Byte.eqb byte_eqb_spec x00 b) as H.
  rewrite Forall_forall in H. by apply (H x00).
Qed.

(** The body of the repr of [a ++ c :: b], cut around the escape of [c]. *)
Lemma decode_split (quote c : byte) (a b : bytes) :
  c <> x00 ->
  repr_body quote (strip_nul (a ++ c :: b)) =
  repr_body quote (strip_nul a) ++ repr_byte quote c ++ repr_body quote (strip_nul b).
Proof.
  intros Hc. rewrite strip_nul_app, strip_nul_cons by done.
  rewrite repr_body_app. unfold repr_body at 2. simpl flat_map. reflexivity.
Qed.

Lemma decode_with_eq quote b :
  quote = x27 \/ quote = x22 ->
  decode_with quote b =
  lf_escapes_to_space (drop_cr_escapes (repr_body quote (strip_nul b))).
Proof.
  intros Hq. unfold decode_with. apply normalize_printable.
  by apply repr_body_printable.
Qed.

(** How the decoding of [a ++ c :: b] is assembled, once the two passes
    are known to split around the escape of [c]. *)
Lemma decode_assemble (quote c : byte) (a b : bytes) (seg : str) :
  quote = x27 \/ quote = x22 -> c <> x00 ->
  (forall s1 s2,
     lf_escapes_to_space (drop_cr_escapes (s1 ++ repr_byte quote c ++ s2)) =
     lf_escapes_to_space (drop_cr_escapes s1) ++ seg ++
     lf_escapes_to_space (drop_cr_escapes s2)) ->
  decode_with quote (a ++ c :: b) =
  decode_with quote a ++ seg ++ decode_with quote b.
Proof.
  intros Hq Hc Hseg. rewrite !decode_with_eq by done.
  by rewrite decode_split, Hseg.
Qed.

Lemma elem_of_strip_nul c b : c <> x00 -> c ∈ strip_nul b <-> c ∈ b.
Proof.
  intros Hc. induction b as [|d b IH]; [reflexivity|].
  unfold strip_nul, bytes_replace in *. rewrite replace1_cons.
  destruct (Byte.eqb x00 d) eqn:E.
  - apply byte_eqb_spec in E. subst d. simpl.
    rewrite IH, elem_of_cons. split; [by right | by intros [?|?]].
  - simpl. by rewrite !elem_of_cons, IH.
Qed.

Lemma repr_byte_hex (quote c : byte) :
  quote = x27 \/ quote = x22 ->
  (Byte.to_N c < 32 \/ 127 <= Byte.to_N c)%N ->
  c ∉ [x00; x09; x0a; x0d] ->
  repr_byte quote c =
    ["\"; "x"; hexdigit (N.shiftr (N.land (Byte.to_N c) 240) 4);
     hexdigit (N.land (Byte.to_N c) 15)]%char /\
  Forall (fun d => d <> "\"%char)
    [hexdigit (N.shiftr (N.land (Byte.to_N c) 240) 4);
     hexdigit (N.land (Byte.to_N c) 15)].
Proof.
  intros Hq Hc Hn.
  destruct Hq as [-> | ->]; destruct c;
    try (exfalso; simpl in Hc; lia);
    try (exfalso; apply Hn; repeat constructor; fail);
    (split; [reflexivity | repeat constructor; discriminate]).
Qed.

(** C5. The text decoder is total on bytes: whatever the byte sequence
    (malformed text, embedded null bytes, carriage returns and line feeds
    included), [bytes_to_string] returns a string and does not raise. *)
Theorem bytes_to_string_total (b : bytes) :
  exists out, bytes_to_string (PyBytes b) = Ok out.
Proof. rewrite bytes_to_string_eq. eauto. Qed.

(** C4. For every byte sequence the decoded text holds no null character,
    no carriage return and no line feed, and a line ending of the input
    (a line feed, alone or after a carriage return) shows up as exactly
    one space between the decodings of what precedes and what follows
    it. *)
Theorem bytes_to_string_single_line :
  (forall b : bytes, exists out,
     bytes_to_string (PyBytes b) = Ok out /\
     (NUL ∉ out) /\ (CR ∉ out) /\ (LF ∉ out)) /\
  (forall a b : bytes,
     let quote := repr_quote (strip_nul (a ++ [x0a] ++ b)) in
     bytes_to_string (PyBytes (a ++ [x0a] ++ b)) =
     Ok (decode_with quote a ++ lit " " ++ decode_with quote b)) /\
  (forall a b : bytes,
     let quote := repr_quote (strip_nul (a ++ [x0d; x0a] ++ b)) in
     bytes_to_string (PyBytes (a ++ [x0d; x0a] ++ b)) =
     Ok (decode_with quote a ++ lit " " ++ decode_with quote b)).
Proof.
  split; [|split].
  - intros b. rewrite bytes_to_string_eq. eexists. split; [reflexivity|].
    pose proof (decode_with_printable _ b (repr_quote_cases (strip_nul b))) as Hp.
    rewrite Forall_forall in Hp.
    repeat split; intros Hin%Hp.
    + by apply not_printable_NUL.
    + by apply not_printable_CR.
    + by apply not_printable_LF.
  - intros a b quote. rewrite bytes_to_string_eq. fold quote. f_equal.
    assert (Hq : quote = x27 \/ quote = x22) by apply repr_quote_cases.
    apply decode_assemble; [done | done |].
    intros s1 s2.
    replace (repr_byte quote x0a) with ["\"; "n"]%char
      by (by destruct Hq as [-> | ->]).
    apply passes_lf.
  - intros a b quote. rewrite bytes_to_string_eq. fold quote. f_equal.
    assert (Hq : quote = x27 \/ quote = x22) by apply repr_quote_cases.
    rewrite !decode_with_eq by done.
    rewrite strip_nul_app.
    change ([x0d; x0a] ++ b) with (x0d :: x0a :: b).
    rewrite !strip_nul_cons by done.
    rewrite repr_body_app.
    change (repr_body quote (x0d :: x0a :: strip_nul b))
      with (repr_byte quote x0d ++ repr_byte quote x0a ++ repr_body quote (strip_nul b)).
    replace (repr_byte quote x0d) with ["\"; "r"]%char
      by (by destruct Hq as [-> | ->]).
    replace (repr_byte quote x0a) with ["\"; "n"]%char
      by (by destruct Hq as [-> | ->]).
    apply passes_crlf.
Qed.

Example decode_two_lines :
  bytes_to_string
    (PyBytes (bytes_of_string "ok" ++ [x0d; x0a] ++ bytes_of_string "done" ++ [x0a]))
  = Ok (lit "ok done ").
Proof. reflexivity. Qed.

Example decode_nul_padded :
  bytes_to_string (PyBytes [x73; x00; x66; x00; x63; x00]) = Ok (lit "sfc").
Proof. reflexivity. Qed.

Example decode_high_byte :
  bytes_to_string (PyBytes [x9c]) = Ok (lit "\x9c").
Proof. reflexivity. Qed.

(** A backslash followed by [n] in the input is taken for the escape of a
    line feed as well. *)
Example decode_windows_path :
  bytes_to_string (PyBytes (bytes_of_string "C:\new")) = Ok (lit "C:\ ew").
Proof. reflexivity. Qed.

Example decode_none : bytes_to_string PyNone = Raise AttributeError.
Proof. reflexivity. Qed.

(** C9, as stated, fails on a lone single quote: the repr then uses double
    quotes and leaves the single quote as it is. *)
Lemma single_quote_not_escaped :
  bytes_to_string (PyBytes [x27]) = Ok ["'"%char] /\
  bytes_to_string (PyBytes [x27]) <> Ok ["\"%char; "'"%char].
Proof. split; [reflexivity | discriminate]. Qed.

(** C9, amended.  The decoded text is printable ASCII throughout.  A byte
    outside printable ASCII, other than NUL, TAB, LF and CR, shows up as
    the four characters of its [\xhh] escape.  A single-quote byte shows up
    escaped as [\'] when the input also holds a double quote, and as a
    bare single quote when it does not. *)
Theorem bytes_to_string_printable_escapes :
  (forall b : bytes, exists out,
     bytes_to_string (PyBytes b) = Ok out /\ Forall printable out) /\
  (forall (a b : bytes) (c : byte),
     (Byte.to_N c < 32 \/ 127 <= Byte.to_N c)%N ->
     c ∉ [x00; x09; x0a; x0d] ->
     let quote := repr_quote (strip_nul (a ++ c :: b)) in
     bytes_to_string (PyBytes (a ++ c :: b)) =
     Ok (decode_with quote a
         ++ ["\"; "x"; hexdigit (N.shiftr (N.land (Byte.to_N c) 240) 4);
             hexdigit (N.land (Byte.to_N c) 15)]%char
         ++ decode_with quote b)) /\
  (forall a b : bytes,
     let quote := repr_quote (strip_nul (a ++ x27 :: b)) in
     (x22 ∈ (a ++ b) ->
      bytes_to_string (PyBytes (a ++ x27 :: b)) =
      Ok (decode_with quote a ++ ["\"; "'"]%char ++ decode_with quote b)) /\
     (x22 ∉ (a ++ b) ->
      bytes_to_string (PyBytes (a ++ x27 :: b)) =
      Ok (decode_with quote a ++ ["'"%char] ++ decode_with quote b))).
Proof.
  split; [|split].
  - intros b. rewrite bytes_to_string_eq. eexists. split; [reflexivity|].
    apply decode_with_printable, repr_quote_cases.
  - intros a b c Hc Hn quote. rewrite bytes_to_string_eq. fold quote. f_equal.
    assert (Hq : quote = x27 \/ quote = x22) by apply repr_quote_cases.
    destruct (repr_byte_hex quote c Hq Hc Hn) as [Hrepr Hhex].
    apply decode_assemble; [done | |].
    + intros ->. apply Hn. constructor.
    + intros s1 s2. rewrite Hrepr.
      apply (passes_escape "x"%char _ s1 s2); [done | done |].
      constructor; [done | exact Hhex].
  - intros a b quote.
    assert (Hmem : x22 ∈ (a ++ b) <-> x22 ∈ strip_nul (a ++ x27 :: b)).
    { rewrite elem_of_strip_nul by done.
      rewrite !elem_of_app, elem_of_cons. split; [tauto|].
      intros [?|[?|?]]; [tauto | discriminate | tauto]. }
    assert (H27 : x27 ∈ strip_nul (a ++ x27 :: b)).
    { rewrite elem_of_strip_nul by done. rewrite elem_of_app, elem_of_cons. tauto. }
    split; intros Hd; rewrite bytes_to_string_eq; fold quote; f_equal.
    + assert (Hq : quote = x27).
      { destruct (repr_quote_cases (strip_nul (a ++ x27 :: b))) as [H|H]; [exact H|].
        apply repr_quote_double in H as [_ H]. exfalso. apply H. by apply Hmem. }
      rewrite Hq. apply decode_assemble; [by left | done |].
      intros s1 s2.
      change (repr_byte x27 x27) with ["\"; "'"]%char.
      apply (passes_escape "'"%char [] s1 s2); [done | done |].
      by repeat constructor.
    + assert (Hq : quote = x22).
      { apply repr_quote_double. split; [exact H27|]. intros H. by apply Hd, Hmem. }
      rewrite Hq. apply decode_assemble; [by right | done |].
      intros s1 s2.
      change (repr_byte x22 x27) with ["'"%char].
      by apply (passes_plain "'"%char s1 s2).
Qed.

(** ** Floats: what rounding to a double keeps *)

Section Floats.
#[local] Open Scope Q_scope.

Lemma Qpow2_pos (e : Z) : 0 < Qpow2 e.
Proof. apply Qpower_0_lt. reflexivity. Qed.

Lemma Qpow2_plus (a b : Z) : Qpow2 (a + b) == Qpow2 a * Qpow2 b.
Proof. apply Qpower_plus. discriminate. Qed.

Lemma Qpow2_minus (a b : Z) : Qpow2 (a - b) == Qpow2 a / Qpow2 b.
Proof. apply Qpower_minus. discriminate. Qed.

Lemma Qpow2_Z (a : Z) : (0 <= a)%Z -> Qpow2 a == inject_Z (2 ^ a).
Proof. intros Ha. unfold Qpow2. by rewrite (Zpower_Qpower 2 a Ha). Qed.

Lemma Zfrac_le (A B N D : Z) :
  (0 < B)%Z -> (0 < D)%Z -> (0 <= A)%Z -> (A <= N)%Z -> (D <= B)%Z ->
  inject_Z A / inject_Z B <= inject_Z N / inject_Z D.
Proof.
  intros HB HD HA HAN HDB.
  apply Qle_shift_div_l; [change 0 with (inject_Z 0); by rewrite <- Zlt_Qlt|].
  unfold Qdiv. rewrite <- Qmult_assoc, (Qmult_comm (/ _)), Qmult_assoc.
  apply Qle_shift_div_r; [change 0 with (inject_Z 0); by rewrite <- Zlt_Qlt|].
  rewrite <- !inject_Z_mult, <- Zle_Qle. nia.
Qed.

Lemma Zfrac_lt (A B N D : Z) :
  (0 < B)%Z -> (0 < D)%Z -> (0 <= N)%Z -> (N < A)%Z -> (B <= D)%Z ->
  inject_Z N / inject_Z D < inject_Z A / inject_Z B.
Proof.
  intros HB HD HN HNA HBD.
  apply Qlt_shift_div_l; [change 0 with (inject_Z 0); by rewrite <- Zlt_Qlt|].
  unfold Qdiv. rewrite <- Qmult_assoc, (Qmult_comm (/ _)), Qmult_assoc.
  apply Qlt_shift_div_r; [change 0 with (inject_Z 0); by rewrite <- Zlt_Qlt|].
  rewrite <- !inject_Z_mult, <- Zlt_Qlt. nia.
Qed.

Lemma Qabs_frac (q : Q) :
  Qabs q == inject_Z (Z.abs (Qnum q)) / inject_Z (Zpos (Qden q)).
Proof. destruct q as [n d]. simpl. apply Qmake_Qdiv. Qed.

Lemma Qnum_nonzero (q : Q) : ~ q == 0 -> (0 < Z.abs (Qnum q))%Z.
Proof.
  intros Hq. destruct q as [n d]. simpl.
  assert (n <> 0%Z); [|lia]. intros ->. apply Hq. reflexivity.
Qed.

Lemma binade_le (q : Q) : ~ q == 0 -> Qpow2 (binade q) <= Qabs q.
Proof.
  intros Hq. unfold binade.
  set (n := Z.abs (Qnum q)). set (d := Zpos (Qden q)).
  destruct (Qle_bool (Qpow2 (Z.log2 n - Z.log2 d)) (Qabs q)) eqn:E.
  - by apply Qle_bool_iff.
  - assert (Hn : (0 < n)%Z) by by apply Qnum_nonzero.
    assert (Hd : (0 < d)%Z) by reflexivity.
    destruct (Z.log2_spec n Hn) as [Hn1 _]. destruct (Z.log2_spec d Hd) as [_ Hd2].
    pose proof (Z.log2_nonneg n). pose proof (Z.log2_nonneg d).
    replace (Z.log2 n - Z.log2 d - 1)%Z with (Z.log2 n - Z.succ (Z.log2 d))%Z by lia.
    rewrite Qpow2_minus, !Qpow2_Z, Qabs_frac by lia. fold n d.
    apply Zfrac_le; lia.
Qed.

Lemma binade_lt (q : Q) : ~ q == 0 -> Qabs q < Qpow2 (binade q + 1).
Proof.
  intros Hq. unfold binade.
  set (n := Z.abs (Qnum q)). set (d := Zpos (Qden q)).
  destruct (Qle_bool (Qpow2 (Z.log2 n - Z.log2 d)) (Qabs q)) eqn:E.
  - assert (Hn : (0 < n)%Z) by by apply Qnum_nonzero.
    assert (Hd : (0 < d)%Z) by reflexivity.
    destruct (Z.log2_spec n Hn) as [_ Hn2]. destruct (Z.log2_spec d Hd) as [Hd1 _].
    pose proof (Z.log2_nonneg n). pose proof (Z.log2_nonneg d).
    replace (Z.log2 n - Z.log2 d + 1)%Z with (Z.succ (Z.log2 n) - Z.log2 d)%Z by lia.
    rewrite Qpow2_minus, !Qpow2_Z, Qabs_frac by lia. fold n d.
    apply Zfrac_lt; lia.
  - replace (Z.log2 n - Z.log2 d - 1 + 1)%Z with (Z.log2 n - Z.log2 d)%Z by lia.
    apply Qnot_le_lt. intros Hle. apply Qle_bool_iff in Hle. congruence.
Qed.

Lemma round_half_even_close (x : Q) :
  Qabs (inject_Z (round_half_even x) - x) <= 1 # 2.
Proof.
  unfold round_half_even.
  pose proof (Qfloor_le x) as Hlo. pose proof (Qlt_floor x) as Hhi.
  rewrite inject_Z_plus in Hhi. change (inject_Z 1) with 1 in Hhi.
  apply Qabs_Qle_condition.
  destruct (Qcompare (x - inject_Z (Qfloor x)) (1 # 2)) eqn:E.
  - apply Qeq_alt in E. destruct (Z.even (Qfloor x));
      rewrite ?inject_Z_plus; change (inject_Z 1) with 1; lra.
  - apply Qlt_alt in E. lra.
  - apply Qgt_alt in E. rewrite inject_Z_plus. change (inject_Z 1) with 1. lra.
Qed.

Lemma round_half_even_ge (x : Q) (n : Z) :
  inject_Z n <= x -> (n <= round_half_even x)%Z.
Proof.
  intros Hn. apply Qfloor_resp_le in Hn. rewrite Qfloor_Z in Hn.
  unfold round_half_even.
  destruct (Qcompare _ _); [destruct (Z.even _)| |]; lia.
Qed.

Lemma round_half_even_le (x : Q) (n : Z) :
  x <= inject_Z n -> (round_half_even x <= n)%Z.
Proof.
  intros Hn. pose proof (Qfloor_resp_le _ _ Hn) as Hf. rewrite Qfloor_Z in Hf.
  destruct (Z.eq_dec (Qfloor x) n) as [Heq|Hne].
  - assert (Hx : x == inject_Z n).
    { apply Qle_antisym; [exact Hn|]. rewrite <- Heq. apply Qfloor_le. }
    unfold round_half_even. rewrite Heq.
    assert (E : Qcompare (x - inject_Z n) (1 # 2) = Lt).
    { apply Qlt_alt. rewrite Hx. unfold Qminus. rewrite Qplus_opp_r. reflexivity. }
    rewrite E. lia.
  - unfold round_half_even.
    destruct (Qcompare _ _); [destruct (Z.even _)| |]; lia.
Qed.

Lemma round64_zero (q : Q) : q == 0 -> round64 q = 0.
Proof. intros Hq. unfold round64. apply Qeq_bool_iff in Hq. by rewrite Hq. Qed.

Lemma round64_nonzero (q : Q) :
  ~ q == 0 ->
  round64 q =
  inject_Z (round_half_even (q / Qpow2 (binade q - 52))) * Qpow2 (binade q - 52).
Proof.
  intros Hq. unfold round64.
  destruct (Qeq_bool q 0) eqn:E; [|reflexivity].
  apply Qeq_bool_iff in E. contradiction.
Qed.

Lemma Qpow2_52 : Qpow2 52 == 4503599627370496.
Proof. vm_compute. reflexivity. Qed.

Lemma Qpow2_53 : Qpow2 53 == 9007199254740992.
Proof. vm_compute. reflexivity. Qed.

(** The scaled value lies in [[2^52, 2^53)]. *)
Lemma scaled_bounds (q : Q) :
  ~ q == 0 ->
  Qpow2 52 <= Qabs (q / Qpow2 (binade q - 52)) /\
  Qabs (q / Qpow2 (binade q - 52)) < Qpow2 53.
Proof.
  intros Hq. pose proof (binade_le q Hq) as Hlo. pose proof (binade_lt q Hq) as Hhi.
  pose proof (Qpow2_pos (binade q - 52)) as HP.
  replace (binade q) with ((binade q - 52) + 52)%Z in Hlo at 1 by lia.
  replace (binade q + 1)%Z with ((binade q - 52) + 53)%Z in Hhi by lia.
  rewrite Qpow2_plus in Hlo, Hhi.
  set (P := Qpow2 (binade q - 52)) in *.
  unfold Qdiv. rewrite Qabs_Qmult, Qabs_Qinv, (Qabs_pos P) by lra.
  split.
  - apply Qle_shift_div_l; [exact HP|]. by rewrite Qmult_comm.
  - apply Qlt_shift_div_r; [exact HP|]. by rewrite Qmult_comm.
Qed.

(** The double nearest to [q] is within [|q| / 2^53] of it. *)
Lemma round64_accuracy (q : Q) :
  Qabs (round64 q - q) <= Qabs q / Qpow2 53.
Proof.
  destruct (Qeq_dec q 0) as [Hq|Hq].
  - rewrite (round64_zero q Hq), Hq. vm_compute. discriminate.
  - rewrite (round64_nonzero q Hq).
    pose proof (binade_le q Hq) as Hlo.
    pose proof (Qpow2_pos (binade q - 52)) as HP.
    replace (binade q) with ((binade q - 52) + 52)%Z in Hlo at 1 by lia.
    rewrite Qpow2_plus, Qpow2_52 in Hlo. rewrite Qpow2_53.
    set (P := Qpow2 (binade q - 52)) in *.
    pose proof (round_half_even_close (q / P)) as Hm.
    set (m := inject_Z (round_half_even (q / P))) in *.
    assert (Heq : m * P - q == (m - q / P) * P) by (field; lra).
    rewrite Heq, Qabs_Qmult, (Qabs_pos P) by lra.
    apply Qle_shift_div_l; [reflexivity|].
    assert (Hstep : Qabs (m - q / P) * P <= (1 # 2) * P).
    { apply Qmult_le_compat_r; [exact Hm | lra]. }
    lra.
Qed.

Lemma round64_pos (q : Q) : 0 < q -> 0 < round64 q.
Proof.
  intros Hq. assert (Hne : ~ q == 0) by lra.
  rewrite (round64_nonzero q Hne).
  pose proof (Qpow2_pos (binade q - 52)) as HP.
  destruct (scaled_bounds q Hne) as [Hlo _].
  set (P := Qpow2 (binade q - 52)) in *.
  rewrite Qabs_pos, Qpow2_52 in Hlo
    by (apply Qle_shift_div_l; [exact HP | lra]).
  apply (round_half_even_ge _ 4503599627370496) in Hlo.
  apply Qmult_lt_0_compat; [|exact HP].
  change 0 with (inject_Z 0). rewrite <- Zlt_Qlt. lia.
Qed.

Lemma round64_neg (q : Q) : q < 0 -> round64 q < 0.
Proof.
  intros Hq. assert (Hne : ~ q == 0) by lra.
  rewrite (round64_nonzero q Hne).
  pose proof (Qpow2_pos (binade q - 52)) as HP.
  destruct (scaled_bounds q Hne) as [Hlo _].
  set (P := Qpow2 (binade q - 52)) in *.
  assert (Hx : q / P <= 0).
  { apply Qle_shift_div_r; [exact HP | lra]. }
  rewrite Qabs_neg, Qpow2_52 in Hlo by exact Hx.
  assert (Hle : q / P <= inject_Z (-4503599627370496)).
  { change (inject_Z (-4503599627370496)) with (- 4503599627370496). lra. }
  apply round_half_even_le in Hle.
  set (m := round_half_even (q / P)) in *.
  assert (Hm : inject_Z m < 0).
  { change 0 with (inject_Z 0). rewrite <- Zlt_Qlt. lia. }
  assert (0 < - inject_Z m * P) by (apply Qmult_lt_0_compat; lra).
  lra.
Qed.


Lemma round_half_even_Z (x : Q) (z : Z) :
  x == inject_Z z -> round_half_even x = z.
Proof.
  intros Hx. unfold round_half_even.
  rewrite (Qfloor_comp _ _ Hx), Qfloor_Z.
  assert (E : Qcompare (x - inject_Z z) (1 # 2) = Lt).
  { apply Qlt_alt. rewrite Hx. unfold Qminus. rewrite Qplus_opp_r. reflexivity. }
  by rewrite E.
Qed.

Lemma binade_small (q : Q) :
  ~ q == 0 -> Qabs q < Qpow2 53 -> (binade q - 52 <= 0)%Z.
Proof.
  intros Hq Hlt. pose proof (binade_le q Hq) as Hlo.
  assert (Hpow : Qpow2 (binade q) < Qpow2 53) by lra.
  apply Qpower_lt_compat_l_inv in Hpow; [lia | reflexivity].
Qed.

(** An integer below 2^53 in magnitude is a double. *)
Lemma round64_Z (q : Q) (n : Z) :
  q == inject_Z n -> (Z.abs n < 2 ^ 53)%Z -> round64 q == inject_Z n.
Proof.
  intros Hq Hn. destruct (Z.eq_dec n 0%Z) as [->|Hn0].
  - by rewrite (round64_zero q Hq).
  - assert (Hne : ~ q == 0).
    { rewrite Hq. change 0 with (inject_Z 0). rewrite inject_Z_injective. exact Hn0. }
    assert (Habs : Qabs q < Qpow2 53).
    { rewrite Qpow2_53, Hq. apply Qabs_Qlt_condition.
      change 9007199254740992 with (inject_Z 9007199254740992).
      change (- inject_Z 9007199254740992) with (inject_Z (-9007199254740992)).
      rewrite <- !Zlt_Qlt. change (2 ^ 53)%Z with 9007199254740992%Z in Hn. lia. }
    pose proof (binade_small q Hne Habs) as He.
    rewrite (round64_nonzero q Hne).
    set (e := (binade q - 52)%Z) in *.
    assert (HP : Qpow2 e == / inject_Z (2 ^ (- e))).
    { replace e with (- - e)%Z at 1 by lia. unfold Qpow2. rewrite Qpower_opp.
      by rewrite (Zpower_Qpower 2 (- e)) by lia. }
    assert (Hpos : 0 < inject_Z (2 ^ (- e))).
    { change 0 with (inject_Z 0). rewrite <- Zlt_Qlt. apply Z.pow_pos_nonneg; lia. }
    assert (Hx : q / Qpow2 e == inject_Z (n * 2 ^ (- e))).
    { rewrite HP, Hq, inject_Z_mult. field. lra. }
    rewrite (round_half_even_Z _ _ Hx), HP, inject_Z_mult. field. lra.
Qed.

Lemma Qfloor_unique (x : Q) (k : Z) :
  inject_Z k <= x -> x < inject_Z k + 1 -> Qfloor x = k.
Proof.
  intros Hlo Hhi. apply Qfloor_resp_le in Hlo. rewrite Qfloor_Z in Hlo.
  pose proof (Qfloor_le x) as Hf.
  assert (Hlt : inject_Z (Qfloor x) < inject_Z (k + 1)).
  { rewrite inject_Z_plus. change (inject_Z 1) with 1. lra. }
  rewrite <- Zlt_Qlt in Hlt. lia.
Qed.

(** Below 2^33 seconds, some 272 years, rounding the seconds to a double
    does not move them across a whole minute. *)
Lemma minutes_exact (d : Z) :
  (Z.abs d < 2 ^ 33 * 1000000)%Z ->
  Qfloor (round64 (d # 1000000) / 60) = (d / 60000000)%Z.
Proof.
  intros Hd. change (2 ^ 33 * 1000000)%Z with 8589934592000000%Z in Hd.
  set (k := (d / 60000000)%Z).
  assert (Hk : (60000000 * k <= d < 60000000 * k + 60000000)%Z).
  { unfold k. pose proof (Z.div_mod d 60000000 ltac:(lia)).
    pose proof (Z.mod_pos_bound d 60000000 ltac:(lia)). lia. }
  assert (Hx : d # 1000000 == inject_Z d / 1000000) by apply Qmake_Qdiv.
  pose proof (round64_accuracy (d # 1000000)) as Hacc.
  rewrite Qpow2_53 in Hacc.
  assert (Habs : Qabs (d # 1000000) < 8589934592).
  { rewrite Hx. apply Qabs_Qlt_condition.
    assert (H1 : inject_Z (-8589934592000000) < inject_Z d) by (rewrite <- Zlt_Qlt; lia).
    assert (H2 : inject_Z d < inject_Z 8589934592000000) by (rewrite <- Zlt_Qlt; lia).
    change (inject_Z (-8589934592000000)) with (- 8589934592000000) in H1.
    change (inject_Z 8589934592000000) with 8589934592000000 in H2.
    split; [apply Qlt_shift_div_l | apply Qlt_shift_div_r]; lra. }
  assert (Hclose : Qabs (round64 (d # 1000000) - (d # 1000000)) < 1 # 1000000).
  { eapply Qle_lt_trans; [exact Hacc|].
    apply Qlt_shift_div_r; [reflexivity|]. lra. }
  apply Qabs_Qlt_condition in Hclose as [Hc1 Hc2].
  assert (HK1 : inject_Z (60000000 * k) <= inject_Z d) by (rewrite <- Zle_Qle; lia).
  assert (HK2 : inject_Z d <= inject_Z (60000000 * k + 59999999))
    by (rewrite <- Zle_Qle; lia).
  rewrite inject_Z_plus, inject_Z_mult in HK2. rewrite inject_Z_mult in HK1.
  change (inject_Z 60000000) with 60000000 in HK1, HK2.
  change (inject_Z 59999999) with 59999999 in HK2.
  assert (Hxd : (d # 1000000) * 1000000 == inject_Z d) by (rewrite Hx; field).
  apply Qfloor_unique.
  - apply Qle_shift_div_l; [reflexivity|].
    destruct (Z.eq_dec d (60000000 * k)%Z) as [Heq|Hne].
    + assert (Hq : d # 1000000 == inject_Z (60 * k)).
      { rewrite Hx, Heq, !inject_Z_mult.
        change (inject_Z 60000000) with 60000000. change (inject_Z 60) with 60.
        field. }
      rewrite (round64_Z _ _ Hq), inject_Z_mult by (change (2 ^ 53)%Z with 9007199254740992%Z; lia).
      change (inject_Z 60) with 60. lra.
    + assert (HK3 : inject_Z (60000000 * k + 1) <= inject_Z d)
        by (rewrite <- Zle_Qle; lia).
      rewrite inject_Z_plus, inject_Z_mult in HK3.
      change (inject_Z 60000000) with 60000000 in HK3.
      change (inject_Z 1) with 1 in HK3. lra.
  - apply Qlt_shift_div_r; [reflexivity|]. lra.
Qed.
End Floats.

(** ** The command unit *)

Lemma Completed_attrs (c : Command) :
  Completed c ->
  exists p rc out err t0 t1,
    _process c = Some p /\ Process_returncode p = Some rc /\
    stdout c = Some out /\ stderr c = Some err /\
    start_time c = Some t0 /\ end_time c = Some t1.
Proof.
  intros ((p & rc & Hp & Hrc) & [out Hout] & [err Herr] & [t0 H0] & [t1 H1]).
  by exists p, rc, out, err, t0, t1.
Qed.

Lemma time_delta_eq (c : Command) (t0 t1 : datetime) :
  start_time c = Some t0 -> end_time c = Some t1 ->
  time_delta c =
  Ok (divmod_fst (total_seconds (t1 - t0)%Z) 60, total_seconds (t1 - t0)%Z).
Proof. intros H0 H1. unfold time_delta. by rewrite H0, H1. Qed.

Lemma time_delta_raises (c : Command) :
  start_time c = None \/ end_time c = None -> time_delta c = Raise TypeError.
Proof.
  intros [H0 | H1]; unfold time_delta, datetime_sub.
  - rewrite H0. by destruct (end_time c).
  - by rewrite H1.
Qed.


Section Display.
Context `{Builtins}.

Lemma Command_str_unspawned (c : Command) :
  _process c = None ->
  Command_str c = Ok (format_str (cmd c) 60 ++ lit " [None] [None]").
Proof. intros Hp. unfold Command_str, pid. by rewrite Hp. Qed.

Lemma Command_str_running (c : Command) (p : Process) :
  _process c = Some p ->
  Process_returncode p = None \/ start_time c = None \/ end_time c = None ->
  Command_str c = Raise TypeError.
Proof.
  intros Hp Hc. unfold Command_str, pid, return_code. rewrite Hp. simpl.
  destruct (Process_returncode p) as [rc|]; [|reflexivity]. simpl.
  rewrite time_delta_raises; [reflexivity|].
  destruct Hc as [?|[?|?]]; [discriminate | by left | by right].
Qed.

Lemma Command_str_completed (c : Command) :
  Completed c -> exists line, Command_str c = Ok line.
Proof.
  intros (p & rc & out & err & t0 & t1 & Hp & Hrc & _ & _ & H0 & H1)%Completed_attrs.
  unfold Command_str, pid, return_code. rewrite Hp. simpl. rewrite Hrc. simpl.
  rewrite (time_delta_eq c t0 t1) by done. simpl. eauto.
Qed.

Lemma write_log_eq (c : Command) (LOG : list log_record) (line : str) (rc : option Z) :
  Command_str c = Ok line -> return_code c = Ok rc ->
  write_log c LOG =
  Ok (LOG ++ [if decide (rc = Some 0%Z) then (INFO, line)
              else (ERROR, line ++ str_opt_str (stderr c) ++ str_opt_str (stdout c))]).
Proof.
  intros Hline Hrc. unfold write_log. rewrite Hrc. simpl.
  destruct (decide (rc = Some 0%Z)); by rewrite Hline.
Qed.

(** C3. For a Completed unit the reporter does not raise and appends one
    record: at level INFO, holding the display line, exactly when the
    exit status is 0; otherwise at level ERROR, holding the display line
    followed by the captured stderr text and then the stdout text. *)
Theorem write_log_completed (c : Command) (LOG : list log_record) :
  Completed c ->
  exists line rc err out,
    Command_str c = Ok line /\ return_code c = Ok (Some rc) /\
    stderr c = Some err /\ stdout c = Some out /\
    (rc = 0%Z -> write_log c LOG = Ok (LOG ++ [(INFO, line)])) /\
    (rc <> 0%Z -> write_log c LOG = Ok (LOG ++ [(ERROR, line ++ err ++ out)])).
Proof.
  intros Hc. destruct (Command_str_completed c Hc) as [line Hline].
  destruct (Completed_attrs c Hc)
    as (p & rc & out & err & t0 & t1 & Hp & Hrc & Hout & Herr & _).
  assert (Hcode : return_code c = Ok (Some rc)).
  { unfold return_code. by rewrite Hp, Hrc. }
  exists line, rc, err, out. repeat split; try done.
  - intros ->. by rewrite (write_log_eq c LOG line (Some 0%Z)).
  - intros Hne. rewrite (write_log_eq c LOG line (Some rc)) by done.
    rewrite Herr, Hout. simpl.
    destruct (decide (Some rc = Some 0%Z)) as [[=]|]; [contradiction | reflexivity].
Qed.

(** C10. A unit whose process has been spawned (its identifier is there)
    but whose exit status or end timestamp is still absent cannot be
    formatted: [__str__] raises.  Formatting returns only before the
    spawn, where the line shows the two placeholders, and once the exit
    status and both timestamps are there, as in a Completed unit. *)
Theorem Command_str_lifecycle (c : Command) :
  (forall p, pid c = Ok (Some p) ->
     return_code c = Ok None \/ end_time c = None ->
     exists e, Command_str c = Raise e) /\
  (pid c = Ok None ->
     Command_str c = Ok (format_str (cmd c) 60 ++ lit " [None] [None]")) /\
  (Completed c -> exists line, Command_str c = Ok line) /\
  ((exists line, Command_str c = Ok line) ->
     pid c = Ok None \/
     exists rc t0 t1, return_code c = Ok (Some rc) /\
       start_time c = Some t0 /\ end_time c = Some t1).
Proof.
  unfold pid, return_code. repeat split.
  - intros p0 Hp Hc. destruct (_process c) as [p|] eqn:Hproc; [|discriminate].
    exists TypeError. apply (Command_str_running c p Hproc).
    destruct Hc as [Hc|Hc]; [left; congruence | by right; right].
  - intros Hp. destruct (_process c) eqn:Hproc; [discriminate|].
    by apply Command_str_unspawned.
  - apply Command_str_completed.
  - intros [line Hline]. destruct (_process c) as [p|] eqn:Hproc; [|by left].
    right.
    destruct (Process_returncode p) as [rc|] eqn:Hrc;
      [|rewrite (Command_str_running c p) in Hline by auto; discriminate].
    destruct (start_time c) as [t0|] eqn:H0;
      [|rewrite (Command_str_running c p) in Hline by auto; discriminate].
    destruct (end_time c) as [t1|] eqn:H1;
      [|rewrite (Command_str_running c p) in Hline by auto; discriminate].
    by exists rc, t0, t1.
Qed.
End Display.


(** ** One step of the loop *)

Lemma Created_Unspawned c : Created c -> Unspawned c.
Proof. intros (? & ? & ? & ? & ?). by repeat split. Qed.

Lemma Awaiting_process_exited rc c : Awaiting c -> Awaiting (process_exited rc c).
Proof.
  intros ([p Hp] & ? & ? & ? & ?). unfold process_exited. rewrite Hp.
  by repeat split.
Qed.

Lemma piped_process_exited rc c : piped c -> piped (process_exited rc c).
Proof. unfold process_exited. by destruct (_process c). Qed.



Lemma exit_status_agrees_unnoticed rc c :
  process_returncode c = None -> exit_status_agrees rc c = true.
Proof.
  unfold process_returncode, exit_status_agrees.
  destruct (_process c) as [p|]; [|done]. simpl. by intros ->.
Qed.

Lemma task_inv_start t now :
  task_inv t -> task_pc t = PcInit ->
  task_inv (mkTask (set_start_time now (task_cmd t)) PcAwaitSpawn).
Proof.
  intros [Hpiped Hst] Hpc. rewrite Hpc in Hst.
  destruct Hst as (? & ? & ? & ? & ?).
  split; [exact Hpiped|]. simpl. by repeat split.
Qed.

Lemma task_inv_spawned t p :
  task_inv t -> task_pc t = PcAwaitSpawn ->
  task_inv (mkTask (set_process (mkProcess p None) (task_cmd t)) PcAwaitExit).
Proof.
  intros [Hpiped Hst] Hpc. rewrite Hpc in Hst.
  destruct Hst as ((? & ? & ? & ?) & ?).
  split; [exact Hpiped|]. simpl. by repeat split.
Qed.

Lemma task_inv_spawn_failed t :
  task_inv t -> task_pc t = PcAwaitSpawn ->
  task_inv (mkTask (task_cmd t) (PcRaised SpawnError)).
Proof.
  intros [Hpiped Hst] Hpc. rewrite Hpc in Hst. destruct Hst as [? _].
  by split.
Qed.

Lemma task_inv_process_exited t rc :
  task_inv t -> task_pc t = PcAwaitExit \/ task_pc t = PcCancelled ->
  is_Some (_process (task_cmd t)) ->
  task_inv (mkTask (process_exited rc (task_cmd t)) (task_pc t)).
Proof.
  intros [Hpiped Hst] Hpc [p Hp].
  split; [by apply piped_process_exited|]. simpl.
  destruct Hpc as [Hpc|Hpc]; rewrite Hpc in *.
  - by apply Awaiting_process_exited.
  - destruct Hst as [[Hn _]|Hst]; [congruence|].
    right. by apply Awaiting_process_exited.
Qed.

Lemma task_inv_cancel t : task_inv t -> task_inv (cancel t).
Proof.
  intros Hinv. unfold cancel.
  destruct (pc_done (task_pc t)) eqn:Hd; [exact Hinv|].
  destruct Hinv as [Hpiped Hst]. split; [exact Hpiped|]. simpl.
  destruct (task_pc t); try discriminate.
  - left. by apply Created_Unspawned.
  - left. by destruct Hst.
  - by right.
Qed.

Section Run.
Context `{Builtins}.

(** The resumption of [func] after [communicate], for a unit that [run]
    built: the streams decode, the unit becomes Completed and the
    reporter appends its record. *)
Lemma func_finish_piped (c : Command) (rc : Z) (out err : bytes)
    (now : datetime) (LOG : list log_record) :
  piped c -> Awaiting c ->
  exists c' LOG',
    func_finish (process_exited rc c)
      (communicate (process_exited rc c) out err) now LOG = (c', Ok LOG') /\
    piped c' /\ Completed c' /\ return_code c' = Ok (Some rc) /\
    length LOG' = S (length LOG).
Proof.
  intros [Ho He] ([p Hp] & Hout & Herr & Hstart & Hend).
  unfold process_exited. rewrite Hp.
  set (c1 := set_process _ c).
  unfold communicate. simpl. rewrite Ho, He.
  unfold func_finish, parse_streams_on_complete. simpl.
  set (c2 := set_end_time now _).
  assert (Hc2 : Completed c2).
  { split; [by exists (mkProcess (Process_pid p) (Some rc)), rc|].
    repeat split; by eauto. }
  destruct (Command_str_completed c2 Hc2) as [line Hline].
  assert (Hcode : return_code c2 = Ok (Some rc)) by reflexivity.
  exists c2, (LOG ++ [if decide (Some rc = Some 0%Z) then (INFO, line)
                      else (ERROR, line ++ str_opt_str (stderr c2)
                                        ++ str_opt_str (stdout c2))]).
  split; [by rewrite (write_log_eq c2 LOG line (Some rc) Hline Hcode)|].
  split; [by split|]. split; [exact Hc2|]. split; [exact Hcode|].
  rewrite length_app. simpl. lia.
Qed.

Lemma step_start (s : loop) (i : nat) (t : task) (now : datetime) :
  closed s = false -> tasks s !! i = Some t -> task_pc t = PcInit ->
  step (EvStart i now) s =
  Some (set_task i (mkTask (set_start_time now (task_cmd t)) PcAwaitSpawn) s).
Proof. intros Hc Ht Hpc. unfold step. rewrite Hc, Ht. simpl. by rewrite Hpc. Qed.

Lemma step_spawned (s : loop) (i : nat) (t : task) (p : Z) :
  closed s = false -> tasks s !! i = Some t -> task_pc t = PcAwaitSpawn ->
  step (EvSpawned i p) s =
  Some (set_task i (mkTask (set_process (mkProcess p None) (task_cmd t)) PcAwaitExit) s).
Proof. intros Hc Ht Hpc. unfold step. rewrite Hc, Ht. simpl. by rewrite Hpc. Qed.

Lemma step_spawn_failed (s : loop) (i : nat) (t : task) :
  closed s = false -> tasks s !! i = Some t -> task_pc t = PcAwaitSpawn ->
  step (EvSpawnFailed i) s =
  Some (finish_task i (task_cmd t) (Raise SpawnError) (LOG s) s).
Proof. intros Hc Ht Hpc. unfold step. rewrite Hc, Ht. simpl. by rewrite Hpc. Qed.

Lemma step_process_exited (s : loop) (i : nat) (t : task) (p : Process) (rc : Z) :
  tasks s !! i = Some t -> task_pc t = PcAwaitExit \/ task_pc t = PcCancelled ->
  _process (task_cmd t) = Some p -> Process_returncode p = None ->
  step (EvProcessExited i rc) s =
  Some (set_task i (mkTask (process_exited rc (task_cmd t)) (task_pc t)) s).
Proof.
  intros Ht Hpc Hp Hrc. unfold step. rewrite Ht. simpl.
  destruct Hpc as [Hpc|Hpc]; rewrite Hpc, Hp; simpl; by rewrite Hrc.
Qed.

Lemma step_cancelled (s : loop) (i : nat) (t : task) :
  closed s = true -> tasks s !! i = Some t -> pc_done (task_pc t) = false ->
  step (EvCancelled i) s = Some (set_task i (cancel t) s).
Proof. intros Hc Ht Hd. unfold step. rewrite Hc, Ht. simpl. by rewrite Hd. Qed.

Lemma step_shutdown (s : loop) :
  closed s = false -> is_Some (gather s) ->
  step EvShutdown s =
  Some {| tasks := tasks s; gather := gather s; LOG := LOG s; closed := true |}.
Proof. intros Hc [r Hg]. unfold step. by rewrite Hc, Hg. Qed.

Lemma step_exited (s : loop) (i : nat) (t : task) (rc : Z) (out err : bytes)
    (now : datetime) :
  closed s = false -> tasks s !! i = Some t -> task_pc t = PcAwaitExit ->
  task_inv t -> exit_status_agrees rc (task_cmd t) = true ->
  exists c' LOG',
    step (EvExited i rc out err now) s = Some (finish_task i c' (Ok ()) LOG' s) /\
    piped c' /\ Completed c' /\ return_code c' = Ok (Some rc).
Proof.
  intros Hc Ht Hpc [Hpiped Hst] Hag. rewrite Hpc in Hst.
  destruct (func_finish_piped (task_cmd t) rc out err now (LOG s) Hpiped Hst)
    as (c' & LOG' & Hfin & Hp' & Hc' & Hrc' & _).
  exists c', LOG'. split; [|done].
  unfold step. rewrite Hc, Ht. simpl. rewrite Hpc, Hag. by rewrite Hfin.
Qed.

(** Which steps are enabled, and on which coroutine state. *)
Lemma step_enabled (ev : event) (s s' : loop) :
  step ev s = Some s' ->
  match ev with
  | EvStart i _ =>
      closed s = false /\ exists t, tasks s !! i = Some t /\ task_pc t = PcInit
  | EvSpawned i _ | EvSpawnFailed i =>
      closed s = false /\
      exists t, tasks s !! i = Some t /\ task_pc t = PcAwaitSpawn
  | EvProcessExited i _ =>
      exists t p, tasks s !! i = Some t /\
        (task_pc t = PcAwaitExit \/ task_pc t = PcCancelled) /\
        _process (task_cmd t) = Some p /\ Process_returncode p = None
  | EvExited i rc _ _ _ =>
      closed s = false /\
      exists t, tasks s !! i = Some t /\ task_pc t = PcAwaitExit /\
                exit_status_agrees rc (task_cmd t) = true
  | EvShutdown => closed s = false /\ is_Some (gather s)
  | EvCancelled i =>
      closed s = true /\
      exists t, tasks s !! i = Some t /\ pc_done (task_pc t) = false
  end.
Proof.
  unfold step. intros Hstep.
  destruct ev as [i now|i p|i|i rc|i rc out err now| |i].
  - destruct (closed s); [discriminate|]. split; [reflexivity|].
    destruct (tasks s !! i) as [t|] eqn:Ht; [|discriminate]. simpl in Hstep.
    exists t. by destruct (task_pc t).
  - destruct (closed s); [discriminate|]. split; [reflexivity|].
    destruct (tasks s !! i) as [t|] eqn:Ht; [|discriminate]. simpl in Hstep.
    exists t. by destruct (task_pc t).
  - destruct (closed s); [discriminate|]. split; [reflexivity|].
    destruct (tasks s !! i) as [t|] eqn:Ht; [|discriminate]. simpl in Hstep.
    exists t. by destruct (task_pc t).
  - destruct (tasks s !! i) as [t|] eqn:Ht; [|discriminate]. simpl in Hstep.
    destruct (task_pc t) eqn:Hpc; try discriminate;
      (destruct (_process (task_cmd t)) as [p|] eqn:Hp; [|discriminate];
       simpl in Hstep; destruct (Process_returncode p) eqn:Hrc; [discriminate|];
       exists t, p; repeat split; auto).
  - destruct (closed s); [discriminate|]. split; [reflexivity|].
    destruct (tasks s !! i) as [t|] eqn:Ht; [|discriminate]. simpl in Hstep.
    exists t. split; [reflexivity|].
    destruct (task_pc t); try discriminate. split; [reflexivity|].
    by destruct (exit_status_agrees rc (task_cmd t)).
  - destruct (closed s); [discriminate|]. split; [reflexivity|].
    by destruct (gather s).
  - destruct (closed s); [|discriminate]. split; [reflexivity|].
    destruct (tasks s !! i) as [t|] eqn:Ht; [|discriminate]. simpl in Hstep.
    exists t. split; [reflexivity|]. by destruct (pc_done (task_pc t)).
Qed.
End Run.

(** ** Invariants of the loop *)

Lemma all_returned_spec (ts : list task) :
  forallb (fun t => pc_returned (task_pc t)) ts = true <->
  Forall (fun t => task_pc t = PcReturned) ts.
Proof.
  induction ts as [|t ts IH]; simpl.
  - split; [constructor | reflexivity].
  - rewrite andb_true_iff, Forall_cons, IH.
    assert (pc_returned (task_pc t) = true <-> task_pc t = PcReturned)
      by (destruct (task_pc t); simpl; split; congruence).
    tauto.
Qed.

Lemma all_returned_lookup (ts : list task) i t :
  Forall (fun t => task_pc t = PcReturned) ts -> ts !! i = Some t ->
  task_pc t = PcReturned.
Proof. intros Hall Ht. by apply (Forall_lookup_1 _ _ _ _ Hall Ht). Qed.

Lemma run_init_inv (lines : list str) : loop_inv (run_init lines).
Proof.
  unfold loop_inv, run_init. simpl. repeat split.
  - apply Forall_fmap, Forall_forall. intros line _. by repeat split.
  - intros Hg. destruct lines; [constructor | discriminate].
  - intros _. apply Forall_fmap, Forall_forall. by intros line _ e.
  - intros e Hg. by destruct lines.
  - intros Hall. destruct lines as [|line lines]; [by eexists|].
    by inversion Hall.
Qed.

Lemma insert_not_all_returned (ts : list task) i t t' :
  ts !! i = Some t -> task_pc t' <> PcReturned ->
  ~ Forall (fun t => task_pc t = PcReturned) (<[i := t']> ts).
Proof.
  intros Ht Hpc Hall. apply Hpc.
  apply (all_returned_lookup (<[i := t']> ts) i); [exact Hall|].
  apply list_lookup_insert_eq. by apply (lookup_lt_Some _ _ _ Ht).
Qed.

Lemma loop_inv_set_task (s : loop) i t t' :
  loop_inv s -> tasks s !! i = Some t -> task_pc t <> PcReturned ->
  task_inv t' -> (forall e, task_pc t' <> PcRaised e) ->
  task_pc t' <> PcReturned ->
  loop_inv (set_task i t' s).
Proof.
  intros (I1 & I2 & I3 & I4 & I5) Ht Hpc Hinv Hnr Hnret.
  unfold loop_inv, set_task. simpl.
  repeat split.
  - by apply Forall_insert.
  - intros Hg. exfalso. apply Hpc.
    apply (all_returned_lookup (tasks s) i); [by apply I2 | done].
  - intros Hg. apply Forall_insert; [by apply I3 | exact Hnr].
  - exact I4.
  - intros Hall. by destruct (insert_not_all_returned (tasks s) i t t' Ht Hnret).
Qed.

Lemma loop_inv_finish_raise (s : loop) i t c L :
  loop_inv s -> tasks s !! i = Some t -> task_pc t <> PcReturned ->
  task_inv (mkTask c (PcRaised SpawnError)) ->
  loop_inv (finish_task i c (Raise SpawnError) L s).
Proof.
  intros (I1 & I2 & I3 & I4 & I5) Ht Hpc Hinv. unfold loop_inv, finish_task. simpl.
  repeat split.
  - by apply Forall_insert.
  - intros Hg. exfalso. apply Hpc. apply (all_returned_lookup (tasks s) i); [|done].
    apply I2. by destruct (gather s).
  - intros Hg. by destruct (gather s).
  - intros e Hg. destruct (gather s) as [r|] eqn:Hgs; simpl in Hg.
    + apply I4. congruence.
    + congruence.
  - intros _. by destruct (gather s).
Qed.

Lemma loop_inv_finish_ok (s : loop) i t c L :
  loop_inv s -> tasks s !! i = Some t -> task_pc t <> PcReturned ->
  task_inv (mkTask c PcReturned) ->
  loop_inv (finish_task i c (Ok ()) L s).
Proof.
  intros (I1 & I2 & I3 & I4 & I5) Ht Hpc Hinv. unfold loop_inv, finish_task. simpl.
  repeat split.
  - by apply Forall_insert.
  - intros Hg. destruct (gather s) as [r|] eqn:Hgs; simpl in Hg.
    + exfalso. apply Hpc. apply (all_returned_lookup (tasks s) i); [|done].
      apply I2. congruence.
    + destruct (forallb _ _) eqn:Hall; [|discriminate].
      by apply all_returned_spec.
  - intros Hg. destruct (gather s) as [r|] eqn:Hgs; simpl in Hg; [discriminate|].
    apply Forall_insert; [by apply I3 | by intros e].
  - intros e Hg. destruct (gather s) as [r|] eqn:Hgs; simpl in Hg.
    + apply I4. congruence.
    + by destruct (forallb _ _).
  - intros Hall. destruct (gather s) as [r|]; simpl; [by eexists|].
    apply all_returned_spec in Hall. rewrite Hall. by eexists.
Qed.

Section RunInvariants.
Context `{Builtins}.

Lemma task_pc_not_returned t :
  task_pc t = PcAwaitExit \/ task_pc t = PcCancelled ->
  task_pc t <> PcReturned /\ forall e, task_pc t <> PcRaised e.
Proof. intros [->| ->]; by split. Qed.

Lemma step_inv (ev : event) (s s' : loop) :
  loop_inv s -> step ev s = Some s' -> loop_inv s'.
Proof.
  intros Hinv Hstep.
  pose proof (step_enabled ev s s' Hstep) as Hen.
  pose proof Hinv as (I1 & I2 & I3 & I4 & I5).
  destruct ev as [i now|i p|i|i rc|i rc out err now| |i].
  - destruct Hen as (Hc & t & Ht & Hpc).
    rewrite (step_start s i t now Hc Ht Hpc) in Hstep. injection Hstep as <-.
    apply (loop_inv_set_task s i t _ Hinv Ht); [congruence | | by intros e | done].
    apply task_inv_start; [|done]. by apply (Forall_lookup_1 _ _ _ _ I1 Ht).
  - destruct Hen as (Hc & t & Ht & Hpc).
    rewrite (step_spawned s i t p Hc Ht Hpc) in Hstep. injection Hstep as <-.
    apply (loop_inv_set_task s i t _ Hinv Ht); [congruence | | by intros e | done].
    apply task_inv_spawned; [|done]. by apply (Forall_lookup_1 _ _ _ _ I1 Ht).
  - destruct Hen as (Hc & t & Ht & Hpc).
    rewrite (step_spawn_failed s i t Hc Ht Hpc) in Hstep. injection Hstep as <-.
    apply (loop_inv_finish_raise s i t _ _ Hinv Ht); [congruence|].
    apply task_inv_spawn_failed; [|done]. by apply (Forall_lookup_1 _ _ _ _ I1 Ht).
  - destruct Hen as (t & p & Ht & Hpc & Hp & Hrc).
    rewrite (step_process_exited s i t p rc Ht Hpc Hp Hrc) in Hstep.
    injection Hstep as <-.
    destruct (task_pc_not_returned t Hpc) as [Hnret Hnr].
    apply (loop_inv_set_task s i t _ Hinv Ht); [done | | done | done].
    apply task_inv_process_exited; [|done|by eexists].
    by apply (Forall_lookup_1 _ _ _ _ I1 Ht).
  - destruct Hen as (Hc & t & Ht & Hpc & Hag).
    pose proof (Forall_lookup_1 _ _ _ _ I1 Ht) as Hti.
    destruct (step_exited s i t rc out err now Hc Ht Hpc Hti Hag)
      as (c' & LOG' & Heq & Hp' & Hc' & _).
    rewrite Heq in Hstep. injection Hstep as <-.
    apply (loop_inv_finish_ok s i t _ _ Hinv Ht); [congruence|].
    by split.
  - destruct Hen as [Hc Hg].
    rewrite (step_shutdown s Hc Hg) in Hstep. by injection Hstep as <-.
  - destruct Hen as (Hc & t & Ht & Hd).
    rewrite (step_cancelled s i t Hc Ht Hd) in Hstep. injection Hstep as <-.
    assert (Hpc : task_pc (cancel t) = PcCancelled)
      by (unfold cancel; by rewrite Hd).
    apply (loop_inv_set_task s i t _ Hinv Ht).
    + intros Hr. by rewrite Hr in Hd.
    + apply task_inv_cancel. by apply (Forall_lookup_1 _ _ _ _ I1 Ht).
    + intros e. by rewrite Hpc.
    + by rewrite Hpc.
Qed.

Lemma exec_inv (evs : list event) (s s' : loop) :
  loop_inv s -> exec evs s = Some s' -> loop_inv s'.
Proof.
  revert s. induction evs as [|ev evs IH]; intros s Hinv Hexec; simpl in Hexec.
  - by injection Hexec as <-.
  - destruct (step ev s) as [s1|] eqn:Hstep; [|discriminate]. simpl in Hexec.
    eapply IH; [|exact Hexec]. by eapply step_inv.
Qed.

Lemma reachable_inv (lines : list str) (evs : list event) (s : loop) :
  exec evs (run_init lines) = Some s -> loop_inv s.
Proof. apply exec_inv, run_init_inv. Qed.

Lemma exec_app (evs1 evs2 : list event) (s : loop) :
  exec (evs1 ++ evs2) s = s1 ← exec evs1 s; exec evs2 s1.
Proof.
  revert s. induction evs1 as [|ev evs1 IH]; intros s; simpl; [reflexivity|].
  destruct (step ev s) as [s1|]; simpl; [apply IH | reflexivity].
Qed.

Lemma exec_app_Some (evs1 evs2 : list event) (s s1 : loop) :
  exec evs1 s = Some s1 -> exec (evs1 ++ evs2) s = exec evs2 s1.
Proof. intros H1. by rewrite exec_app, H1. Qed.
End RunInvariants.

(** ** Runs in which every unit completes, in any order *)

Lemma length_mark {A} (v : A) l acc : length (mark v l acc) = length acc.
Proof.
  revert acc. induction l as [|i l IH]; intros acc; [reflexivity|].
  unfold mark in *. simpl. by rewrite IH, length_insert.
Qed.

Lemma lookup_mark_notin {A} (v : A) l acc j :
  j ∉ l -> mark v l acc !! j = acc !! j.
Proof.
  revert acc. induction l as [|i l IH]; intros acc Hj; [reflexivity|].
  apply not_elem_of_cons in Hj as [Hne Hj].
  unfold mark in *. simpl. rewrite IH by done.
  by apply list_lookup_insert_ne.
Qed.

Lemma lookup_mark_in {A} (v : A) l acc j :
  j ∈ l -> j < length acc -> mark v l acc !! j = Some v.
Proof.
  revert acc. induction l as [|i l IH]; intros acc Hj Hlen; [by inversion Hj|].
  change (mark v (i :: l) acc) with (mark v l (<[i := v]> acc)).
  destruct (decide (j ∈ l)) as [Hin|Hnin].
  - apply IH; [done | by rewrite length_insert].
  - apply elem_of_cons in Hj as [-> | Hj]; [|contradiction].
    rewrite lookup_mark_notin by done. by apply list_lookup_insert_eq.
Qed.

Lemma mark_all {A} (v : A) l acc :
  (forall j, j < length acc -> j ∈ l) -> mark v l acc = replicate (length acc) v.
Proof.
  intros Hall. apply list_eq. intros j.
  destruct (decide (j < length acc)) as [Hlt|Hge].
  - rewrite lookup_mark_in by auto. symmetry. by apply lookup_replicate_2.
  - rewrite !lookup_ge_None_2; [done | | ].
    + rewrite length_replicate. lia.
    + rewrite length_mark. lia.
Qed.

Lemma pcs_run_init lines : pcs (run_init lines) = replicate (length lines) PcInit.
Proof.
  unfold pcs, run_init. simpl. induction lines as [|line lines IH]; [reflexivity|].
  simpl. by rewrite <- IH.
Qed.

Lemma pcs_lookup (s : loop) i p :
  pcs s !! i = Some p -> exists t, tasks s !! i = Some t /\ task_pc t = p.
Proof.
  unfold pcs. rewrite list_lookup_fmap. intros Hp.
  apply fmap_Some in Hp as (t & Ht & ->). by exists t.
Qed.

Lemma pcs_set_task (s : loop) i t :
  pcs (set_task i t s) = <[i := task_pc t]> (pcs s).
Proof. unfold pcs, set_task. simpl. apply list_fmap_insert. Qed.

Lemma pcs_finish_task (s : loop) i c L :
  pcs (finish_task i c (Ok ()) L s) = <[i := PcReturned]> (pcs s).
Proof. unfold pcs, finish_task. simpl. apply list_fmap_insert. Qed.

Lemma completion_order_app evs1 evs2 :
  completion_order (evs1 ++ evs2) = completion_order evs1 ++ completion_order evs2.
Proof. apply omap_app. Qed.

Lemma completion_order_cons ev evs :
  completion_order (ev :: evs) =
  match ev with EvExited i _ _ _ _ => [i] | _ => [] end ++ completion_order evs.
Proof. by destruct ev. Qed.

Lemma completion_order_exits (ev : nat -> event) (l : list nat) :
  (forall i, exists rc out err now, ev i = EvExited i rc out err now) ->
  completion_order (ev <$> l) = l.
Proof.
  intros Hev. induction l as [|i l IH]; [reflexivity|].
  destruct (Hev i) as (rc & out & err & now & Hi).
  rewrite fmap_cons, completion_order_cons, Hi, IH. reflexivity.
Qed.

Lemma completion_order_others (ev : nat -> event) (l : list nat) :
  (forall i, match ev i with EvExited _ _ _ _ _ => False | _ => True end) ->
  completion_order (ev <$> l) = [].
Proof.
  intros Hev. induction l as [|i l IH]; [reflexivity|].
  rewrite fmap_cons, completion_order_cons, IH. specialize (Hev i).
  by destruct (ev i).
Qed.

Section Schedules.
Context `{Builtins}.

(** One pass over the units listed in [l], each taking the step [ev i]
    from coroutine state [from] to [to]. *)
Lemma exec_phase (ev : nat -> event) (from to : pc) :
  (forall s i, loop_inv s -> closed s = false -> no_raise s -> unnoticed s ->
     pcs s !! i = Some from ->
     exists s', step (ev i) s = Some s' /\ pcs s' = <[i := to]> (pcs s) /\
                closed s' = false /\ no_raise s' /\ unnoticed s') ->
  forall l s, NoDup l -> loop_inv s -> closed s = false -> no_raise s ->
    unnoticed s ->
    (forall i, i ∈ l -> pcs s !! i = Some from) ->
    exists s', exec (ev <$> l) s = Some s' /\ pcs s' = mark to l (pcs s) /\
               closed s' = false /\ no_raise s' /\ unnoticed s' /\ loop_inv s'.
Proof.
  intros Hstep l. induction l as [|i l IH]; intros s Hnd Hinv Hc Hnr Hun Hfrom.
  - exists s. split; [done|]. split; [done|]. split; [done|]. by split.
  - apply NoDup_cons in Hnd as [Hi Hnd].
    destruct (Hstep s i Hinv Hc Hnr Hun) as (s1 & Hs1 & Hpcs1 & Hc1 & Hnr1 & Hun1).
    { apply Hfrom. by left. }
    destruct (IH s1 Hnd) as (s' & Hs' & Hpcs' & Hc' & Hnr' & Hun' & Hinv');
      try done.
    { by apply (step_inv (ev i) s). }
    { intros j Hj. rewrite Hpcs1, list_lookup_insert_ne.
      - apply Hfrom. by right.
      - intros ->. contradiction. }
    exists s'. split; [|split; [|done]].
    + simpl. rewrite Hs1. simpl. exact Hs'.
    + rewrite Hpcs', Hpcs1. reflexivity.
Qed.

Lemma unnoticed_set_task s i t :
  unnoticed s ->
  (task_pc t = PcAwaitExit -> process_returncode (task_cmd t) = None) ->
  unnoticed (set_task i t s).
Proof. intros Hun Ht. unfold unnoticed, set_task. simpl. by apply Forall_insert. Qed.

Lemma phase_start s i now :
  loop_inv s -> closed s = false -> no_raise s -> unnoticed s ->
  pcs s !! i = Some PcInit ->
  exists s', step (EvStart i now) s = Some s' /\
             pcs s' = <[i := PcAwaitSpawn]> (pcs s) /\
             closed s' = false /\ no_raise s' /\ unnoticed s'.
Proof.
  intros _ Hc Hnr Hun (t & Ht & Hpc)%pcs_lookup.
  eexists. split; [by apply (step_start s i t)|].
  rewrite pcs_set_task. split; [done|]. split; [done|]. split; [done|].
  by apply unnoticed_set_task.
Qed.

Lemma phase_spawned s i p :
  loop_inv s -> closed s = false -> no_raise s -> unnoticed s ->
  pcs s !! i = Some PcAwaitSpawn ->
  exists s', step (EvSpawned i p) s = Some s' /\
             pcs s' = <[i := PcAwaitExit]> (pcs s) /\
             closed s' = false /\ no_raise s' /\ unnoticed s'.
Proof.
  intros _ Hc Hnr Hun (t & Ht & Hpc)%pcs_lookup.
  eexists. split; [by apply (step_spawned s i t)|].
  rewrite pcs_set_task. split; [done|]. split; [done|]. split; [done|].
  by apply unnoticed_set_task.
Qed.

Lemma phase_exited s i rc out err now :
  loop_inv s -> closed s = false -> no_raise s -> unnoticed s ->
  pcs s !! i = Some PcAwaitExit ->
  exists s', step (EvExited i rc out err now) s = Some s' /\
             pcs s' = <[i := PcReturned]> (pcs s) /\
             closed s' = false /\ no_raise s' /\ unnoticed s'.
Proof.
  intros Hinv Hc Hnr Hun (t & Ht & Hpc)%pcs_lookup.
  assert (Hti : task_inv t).
  { destruct Hinv as [I1 _]. by apply (Forall_lookup_1 _ _ _ _ I1 Ht). }
  assert (Hag : exit_status_agrees rc (task_cmd t) = true).
  { apply exit_status_agrees_unnoticed.
    by apply (Forall_lookup_1 _ _ _ _ Hun Ht). }
  destruct (step_exited s i t rc out err now Hc Ht Hpc Hti Hag)
    as (c' & LOG' & Heq & _).
  eexists. split; [exact Heq|].
  rewrite pcs_finish_task. split; [done|]. split; [done|]. split.
  - intros e. unfold finish_task, settle. simpl.
    destruct (gather s) as [r|] eqn:Hg.
    + intros [= ->]. by apply (Hnr e).
    + by destruct (forallb _ _).
  - unfold unnoticed, finish_task. simpl. by apply Forall_insert.
Qed.

(** Every unit of the batch can complete, in whatever order: the
    schedule runs, and [gather] resolves with a normal return. *)
Lemma exec_schedule (lines : list str) (order : list nat) :
  order ≡ₚ seq 0 (length lines) ->
  exists s, exec (schedule (length lines) order) (run_init lines) = Some s /\
            gather s = Some (Ok ()) /\ closed s = false.
Proof.
  intros Hperm. set (n := length lines).
  assert (Hseq : forall j, j ∈ seq 0 n <-> j < n).
  { intros j. rewrite elem_of_seq. lia. }
  assert (Hord : forall j, j ∈ order <-> j < n).
  { intros j. by rewrite Hperm. }
  assert (Hnr0 : no_raise (run_init lines)).
  { intros e. unfold run_init. simpl. by destruct lines. }
  assert (Hun0 : unnoticed (run_init lines)).
  { unfold unnoticed, run_init. simpl. apply Forall_fmap, Forall_forall.
    by intros line _. }
  destruct (exec_phase (fun i => EvStart i (Z.of_nat i)) PcInit PcAwaitSpawn
              (fun s i => phase_start s i _) (seq 0 n) (run_init lines))
    as (s1 & Hs1 & Hp1 & Hc1 & Hnr1 & Hun1 & Hinv1);
    [apply NoDup_seq | apply run_init_inv | done | done | done | |].
  { intros i Hi%Hseq. rewrite pcs_run_init. by apply lookup_replicate_2. }
  rewrite pcs_run_init, mark_all in Hp1
    by (intros j; rewrite length_replicate; apply Hseq).
  rewrite length_replicate in Hp1.
  destruct (exec_phase (fun i => EvSpawned i (1000 + Z.of_nat i)%Z)
              PcAwaitSpawn PcAwaitExit
              (fun s i => phase_spawned s i _) (seq 0 n) s1)
    as (s2 & Hs2 & Hp2 & Hc2 & Hnr2 & Hun2 & Hinv2);
    [apply NoDup_seq | done | done | done | done | |].
  { intros i Hi%Hseq. rewrite Hp1. by apply lookup_replicate_2. }
  rewrite Hp1, mark_all in Hp2
    by (intros j; rewrite length_replicate; apply Hseq).
  rewrite length_replicate in Hp2.
  destruct (exec_phase
              (fun i => EvExited i 0%Z [] [] (60000000 + Z.of_nat i)%Z)
              PcAwaitExit PcReturned
              (fun s i => phase_exited s i _ _ _ _) order s2)
    as (s3 & Hs3 & Hp3 & Hc3 & Hnr3 & Hun3 & Hinv3);
    [ | done | done | done | done | |].
  { rewrite Hperm. apply NoDup_seq. }
  { intros i Hi%Hord. rewrite Hp2. by apply lookup_replicate_2. }
  rewrite Hp2, mark_all in Hp3
    by (intros j; rewrite length_replicate; apply Hord).
  rewrite length_replicate in Hp3.
  exists s3. split; [|split; [|done]].
  - unfold schedule. fold n.
    rewrite (exec_app_Some _ _ _ s1 Hs1), (exec_app_Some _ _ _ s2 Hs2).
    exact Hs3.
  - destruct Hinv3 as (_ & _ & _ & _ & I5).
    destruct I5 as [r Hr].
    + assert (Hall : Forall (fun p => p = PcReturned) (pcs s3))
        by (rewrite Hp3; by apply Forall_replicate).
      unfold pcs in Hall. by apply Forall_fmap in Hall.
    + destruct r as [[]|e]; [exact Hr | by destruct (Hnr3 e)].
Qed.

Lemma completion_order_schedule n order :
  completion_order (schedule n order) = order.
Proof.
  unfold schedule. rewrite !completion_order_app.
  rewrite !completion_order_others by done.
  simpl. apply completion_order_exits. intros i. by eexists _, _, _, _.
Qed.

Lemma step_length ev s s' : step ev s = Some s' -> length (tasks s') = length (tasks s).
Proof.
  intros Hstep. pose proof (step_enabled ev s s' Hstep) as Hen.
  destruct ev as [i now|i p|i|i rc|i rc out err now| |i].
  - destruct Hen as (Hc & t & Ht & Hpc).
    rewrite (step_start s i t now Hc Ht Hpc) in Hstep. injection Hstep as <-.
    apply length_insert.
  - destruct Hen as (Hc & t & Ht & Hpc).
    rewrite (step_spawned s i t p Hc Ht Hpc) in Hstep. injection Hstep as <-.
    apply length_insert.
  - destruct Hen as (Hc & t & Ht & Hpc).
    rewrite (step_spawn_failed s i t Hc Ht Hpc) in Hstep. injection Hstep as <-.
    apply length_insert.
  - destruct Hen as (t & p & Ht & Hpc & Hp & Hrc).
    rewrite (step_process_exited s i t p rc Ht Hpc Hp Hrc) in Hstep.
    injection Hstep as <-. apply length_insert.
  - destruct Hen as (Hc & t & Ht & Hpc & Hag).
    unfold step in Hstep. rewrite Hc, Ht in Hstep. simpl in Hstep.
    rewrite Hpc, Hag in Hstep.
    destruct (func_finish _ _ _ _) as [c' [L|e]];
      injection Hstep as <-; apply length_insert.
  - destruct Hen as [Hc Hg].
    rewrite (step_shutdown s Hc Hg) in Hstep. by injection Hstep as <-.
  - destruct Hen as (Hc & t & Ht & Hd).
    rewrite (step_cancelled s i t Hc Ht Hd) in Hstep. injection Hstep as <-.
    apply length_insert.
Qed.

Lemma exec_length evs s s' : exec evs s = Some s' -> length (tasks s') = length (tasks s).
Proof.
  revert s. induction evs as [|ev evs IH]; intros s Hexec; simpl in Hexec.
  - by injection Hexec as <-.
  - destruct (step ev s) as [s1|] eqn:Hstep; [|discriminate]. simpl in Hexec.
    rewrite (IH s1 Hexec). by apply (step_length ev).
Qed.
End Schedules.

(** ** The units of a run *)

Section Units.
Context `{Builtins}.

Lemma reachable_task_inv lines evs s i t :
  exec evs (run_init lines) = Some s -> tasks s !! i = Some t -> task_inv t.
Proof.
  intros Hexec Ht. destruct (reachable_inv lines evs s Hexec) as [I1 _].
  by apply (Forall_lookup_1 _ _ _ _ I1 Ht).
Qed.





(** *** The exit status a unit holds is the one the events have shown *)







End Units.

(** ** The batch runner *)

Section Batch.
Context `{Builtins}.

(** C1, amended.  When the spawn of one unit fails, [gather] resolves
    with that error at that very step, so the batch call raises to its
    caller without waiting for the other units: the step leaves the
    other units, whatever their state, and the log as they are. *)
Theorem spawn_failure_raises_at_once lines evs s i s' :
  exec evs (run_init lines) = Some s ->
  step (EvSpawnFailed i) s = Some s' ->
  gather s' = Some (Raise SpawnError) /\
  (forall j, j <> i -> tasks s' !! j = tasks s !! j) /\
  LOG s' = LOG s.
Proof.
  intros Hexec Hstep.
  pose proof (reachable_inv lines evs s Hexec) as Hinv.
  destruct (step_enabled _ _ _ Hstep) as (Hc & t & Ht & Hpc).
  rewrite (step_spawn_failed s i t Hc Ht Hpc) in Hstep. injection Hstep as <-.
  split; [|split; [|reflexivity]].
  - destruct Hinv as (_ & I2 & _ & I4 & _). unfold finish_task, settle. simpl.
    destruct (gather s) as [[[]|e]|] eqn:Hgs; [| |reflexivity].
    + pose proof (all_returned_lookup _ i t (I2 eq_refl) Ht). congruence.
    + by rewrite (I4 e eq_refl).
  - intros j Hne. unfold finish_task. simpl. by apply list_lookup_insert_ne.
Qed.

(** C8, amended.  The batch call returns normally only after every unit
    of the batch has reached the Completed state; once a unit has failed
    the call does not return but raises; and no completion order is
    imposed: for every ordering of the units there is a run in which they
    complete in that order and the call returns. *)
Theorem run_joins_on_normal_return :
  (forall lines evs s,
     exec evs (run_init lines) = Some s -> gather s = Some (Ok ()) ->
     length (tasks s) = length lines /\
     Forall (fun t => Completed (task_cmd t)) (tasks s)) /\
  (forall lines evs s i t e,
     exec evs (run_init lines) = Some s ->
     tasks s !! i = Some t -> task_pc t = PcRaised e ->
     gather s = Some (Raise SpawnError)) /\
  (forall lines order,
     order ≡ₚ seq 0 (length lines) ->
     exists evs s,
       exec evs (run_init lines) = Some s /\ gather s = Some (Ok ()) /\
       completion_order evs = order).
Proof.
  split; [|split].
  - intros lines evs s Hexec Hg. split.
    + rewrite (exec_length evs _ s Hexec). unfold run_init. simpl.
      apply length_fmap.
    + destruct (reachable_inv lines evs s Hexec) as (I1 & I2 & _).
      specialize (I2 Hg). apply Forall_forall. intros t Ht.
      rewrite Forall_forall in I1, I2.
      destruct (I1 t Ht) as [_ Hst]. by rewrite (I2 t Ht) in Hst.
  - intros lines evs s i t e Hexec Ht Hpc.
    destruct (reachable_inv lines evs s Hexec) as (_ & I2 & I3 & I4 & _).
    destruct (gather s) as [[[]|e']|] eqn:Hg.
    + pose proof (all_returned_lookup _ i t (I2 eq_refl) Ht). congruence.
    + by rewrite (I4 e' eq_refl).
    + pose proof (Forall_lookup_1 _ _ _ _ (I3 eq_refl) Ht e). contradiction.
  - intros lines order Hperm.
    destruct (exec_schedule lines order Hperm) as (s & Hexec & Hg & _).
    exists (schedule (length lines) order), s.
    split; [exact Hexec|]. split; [exact Hg|]. apply completion_order_schedule.
Qed.
End Batch.

(** ** The claims on concrete units and runs *)

Lemma unit_failed_Completed : Completed unit_failed.
Proof.
  split; [by exists (mkProcess 4242 (Some 1%Z)), 1%Z|].
  repeat split; by eexists.
Qed.

Lemma write_log_completed_witness :
  Completed unit_failed /\
  exists line rc err out,
    Command_str unit_failed = Ok line /\ return_code unit_failed = Ok (Some rc) /\
    stderr unit_failed = Some err /\ stdout unit_failed = Some out /\
    (rc = 0%Z -> write_log unit_failed [] = Ok ([] ++ [(INFO, line)])) /\
    (rc <> 0%Z -> write_log unit_failed [] = Ok ([] ++ [(ERROR, line ++ err ++ out)])).
Proof.
  split; [exact unit_failed_Completed|].
  exact (write_log_completed unit_failed [] unit_failed_Completed).
Defined.



Lemma Command_str_lifecycle_witness :
  (pid unit_running = Ok (Some 4242%Z) /\
   (return_code unit_running = Ok None \/ end_time unit_running = None) /\
   exists e, Command_str unit_running = Raise e) /\
  (pid (Command_init (lit "sfc /scannow") None None) = Ok None /\
   Command_str (Command_init (lit "sfc /scannow") None None) =
   Ok (format_str (lit "sfc /scannow") 60 ++ lit " [None] [None]")) /\
  (Completed unit_failed /\ exists line, Command_str unit_failed = Ok line).
Proof.
  split; [|split].
  - split; [reflexivity|]. split; [by left|].
    exact (proj1 (Command_str_lifecycle unit_running) 4242%Z eq_refl
             (or_introl eq_refl)).
  - split; [reflexivity|].
    exact (proj1 (proj2 (Command_str_lifecycle
                           (Command_init (lit "sfc /scannow") None None)))
             eq_refl).
  - split; [exact unit_failed_Completed|].
    exact (proj1 (proj2 (proj2 (Command_str_lifecycle unit_failed)))
             unit_failed_Completed).
Defined.

Lemma bytes_to_string_printable_escapes_witness :
  ((Byte.to_N x9c < 32 \/ 127 <= Byte.to_N x9c)%N /\
   (x9c ∉ [x00; x09; x0a; x0d]) /\
   bytes_to_string (PyBytes ([x61] ++ x9c :: [x62])) =
   Ok (decode_with x27 [x61] ++ lit "\x9c" ++ decode_with x27 [x62])) /\
  ((x22 ∈ ([x22] ++ [x62])) /\
   bytes_to_string (PyBytes ([x22] ++ x27 :: [x62])) =
   Ok (decode_with x27 [x22] ++ lit "\'" ++ decode_with x27 [x62])) /\
  ((x22 ∉ ([x61] ++ [x62])) /\
   bytes_to_string (PyBytes ([x61] ++ x27 :: [x62])) =
   Ok (decode_with x22 [x61] ++ lit "'" ++ decode_with x22 [x62])).
Proof.
  assert (Hn : x9c ∉ [x00; x09; x0a; x0d]).
  { intros Hin. repeat (apply elem_of_cons in Hin as [Hin|Hin]; [discriminate|]).
    by inversion Hin. }
  assert (Hd : x22 ∉ ([x61] ++ [x62])).
  { intros Hin. repeat (apply elem_of_cons in Hin as [Hin|Hin]; [discriminate|]).
    by inversion Hin. }
  split; [|split].
  - split; [right; vm_compute; discriminate|]. split; [exact Hn|].
    exact (proj1 (proj2 bytes_to_string_printable_escapes) [x61] [x62] x9c
             (or_intror (fun E : (127 ?= Byte.to_N x9c)%N = Gt =>
                           eq_ind Lt (fun c => match c with Gt => False | _ => True end)
                             I Gt E))
             Hn).
  - split; [by left|].
    exact (proj1 (proj2 (proj2 bytes_to_string_printable_escapes) [x22] [x62])
             (list_elem_of_here x22 [x62])).
  - split; [exact Hd|].
    exact (proj2 (proj2 (proj2 bytes_to_string_printable_escapes) [x61] [x62]) Hd).
Defined.





(** C1, as stated, fails on the batch of [main]: the first spawn fails,
    and [gather] has raised, so that the batch call is over, while the
    other four units are still waiting for their processes to be spawned:
    none of them has completed and nothing is logged. *)
Lemma spawn_failure_leaves_siblings_pending :
  exists s,
    exec first_spawn_fails (run_init main_lines) = Some s /\
    gather s = Some (Raise SpawnError) /\
    pcs s = [PcRaised SpawnError; PcAwaitSpawn; PcAwaitSpawn; PcAwaitSpawn;
             PcAwaitSpawn] /\
    Forall (fun t => stdout (task_cmd t) = None /\ end_time (task_cmd t) = None)
      (tasks s) /\
    LOG s = [].
Proof.
  eexists.
  split; [vm_compute; reflexivity|].
  split; [reflexivity|]. split; [reflexivity|]. split; [|reflexivity].
  repeat constructor.
Qed.

Lemma spawn_failure_raises_at_once_witness :
  exists s s',
    exec fourth_spawn_pending (run_init main_lines) = Some s /\
    step (EvSpawnFailed 3) s = Some s' /\
    gather s' = Some (Raise SpawnError) /\
    (forall j, j <> 3 -> tasks s' !! j = tasks s !! j) /\
    LOG s' = LOG s.
Proof.
  eexists _, _.
  split; [vm_compute; reflexivity|]. split; [vm_compute; reflexivity|].
  refine (spawn_failure_raises_at_once main_lines fourth_spawn_pending _ 3 _ _ _);
    vm_compute; reflexivity.
Defined.

(** C8, as stated, fails on the batch of [main]: when the fourth spawn
    fails the batch call is over (it has raised) although the other four
    units are neither Completed nor failed: they are still waiting for
    their processes to be spawned. *)
Lemma batch_call_ends_before_units_complete :
  exists s,
    exec fourth_spawn_fails (run_init main_lines) = Some s /\
    is_Some (gather s) /\
    pcs s = [PcAwaitSpawn; PcAwaitSpawn; PcAwaitSpawn; PcRaised SpawnError;
             PcAwaitSpawn] /\
    Forall (fun t => task_pc t <> PcRaised SpawnError -> end_time (task_cmd t) = None)
      (tasks s).
Proof.
  eexists. split; [vm_compute; reflexivity|].
  split; [by eexists|]. split; [reflexivity|].
  repeat constructor.
Qed.

Lemma run_joins_on_normal_return_witness :
  (exists s,
     exec (schedule 5 [3; 0; 4; 1; 2]) (run_init main_lines) = Some s /\
     gather s = Some (Ok ()) /\
     length (tasks s) = length main_lines /\
     Forall (fun t => Completed (task_cmd t)) (tasks s)) /\
  (exists s t,
     exec fourth_spawn_fails (run_init main_lines) = Some s /\
     tasks s !! 3 = Some t /\ task_pc t = PcRaised SpawnError /\
     gather s = Some (Raise SpawnError)) /\
  ([3; 0; 4; 1; 2] ≡ₚ seq 0 (length main_lines) /\
   exists evs s,
     exec evs (run_init main_lines) = Some s /\ gather s = Some (Ok ()) /\
     completion_order evs = [3; 0; 4; 1; 2]).
Proof.
  assert (Hperm : [3; 0; 4; 1; 2] ≡ₚ seq 0 (length main_lines)).
  { apply (bool_decide_unpack _). vm_compute. exact I. }
  split; [|split].
  - eexists.
    assert (Hexec : exec (schedule 5 [3; 0; 4; 1; 2]) (run_init main_lines) = Some _)
      by (vm_compute; reflexivity).
    split; [exact Hexec|]. split; [reflexivity|].
    exact (proj1 run_joins_on_normal_return main_lines _ _ Hexec eq_refl).
  - eexists _, _.
    assert (Hexec : exec fourth_spawn_fails (run_init main_lines) = Some _)
      by (vm_compute; reflexivity).
    split; [exact Hexec|]. split; [reflexivity|]. split; [reflexivity|].
    exact (proj1 (proj2 run_joins_on_normal_return) main_lines _ _ 3 _ SpawnError
             Hexec eq_refl eq_refl).
  - split; [exact Hperm|].
    exact (proj2 (proj2 run_joins_on_normal_return) main_lines _ Hperm).
Defined.

(** * Further properties of the code *)

(** ** The text decoder on plain text, NUL bytes, tabs and backslashes *)

Lemma repr_byte_plain (quote c : byte) :
  quote = x27 \/ quote = x22 -> c <> quote -> c <> x5c ->
  (32 <= Byte.to_N c <= 126)%N ->
  repr_byte quote c = [ascii_of_byte c].
Proof.
  intros Hq Hne Hb Hc.
  destruct Hq as [-> | ->]; destruct c;
    try (exfalso; simpl in Hc; lia); try congruence; reflexivity.
Qed.

Lemma repr_body_plain (quote : byte) (b : bytes) :
  quote = x27 \/ quote = x22 -> quote ∉ b ->
  Forall (fun c => (32 <= Byte.to_N c <= 126)%N /\ c <> x5c) b ->
  repr_body quote b = ascii_of_byte <$> b.
Proof.
  intros Hq Hnq Hb. induction Hb as [|c b [Hc Hbs] _ IH]; [reflexivity|].
  apply not_elem_of_cons in Hnq as [Hne Hnq].
  change (repr_body quote (c :: b)) with (repr_byte quote c ++ repr_body quote b).
  rewrite IH by done. by rewrite repr_byte_plain.
Qed.

Lemma ascii_of_byte_backslash (c : byte) :
  ascii_of_byte c = "\"%char -> c = x5c.
Proof.
  intros Hc. rewrite <- (byte_of_ascii_of_byte c), Hc. reflexivity.
Qed.

Lemma passes_no_backslash (m : str) :
  Forall (fun c => c <> "\"%char) m ->
  lf_escapes_to_space (drop_cr_escapes m) = m.
Proof.
  intros Hm. unfold lf_escapes_to_space, drop_cr_escapes.
  rewrite <- (app_nil_r m) at 1. rewrite pass_plain by done.
  change (str_replace ["\"%char; "r"%char] [] []) with (@nil ascii).
  rewrite pass_plain by done. apply app_nil_r.
Qed.

Lemma plain_quote_absent (b : bytes) :
  x27 ∉ b \/ x22 ∉ b -> repr_quote b ∉ b.
Proof.
  intros Hb. destruct (repr_quote_cases b) as [Hq|Hq]; rewrite Hq.
  - destruct Hb as [Hb|Hb]; [exact Hb|]. intros Hin.
    assert (repr_quote b = x22) by (by apply repr_quote_double). congruence.
  - by apply repr_quote_double in Hq as [_ Hq].
Qed.

(** X1. Plain text comes back unchanged: on printable ASCII bytes that
    hold no backslash and not both kinds of quote, the decoder returns
    the very same characters. *)
Theorem bytes_to_string_plain_text (b : bytes) :
  Forall (fun c => (32 <= Byte.to_N c <= 126)%N /\ c <> x5c) b ->
  (x27 ∉ b) \/ (x22 ∉ b) ->
  bytes_to_string (PyBytes b) = Ok (ascii_of_byte <$> b).
Proof.
  intros Hb Hquotes.
  assert (Hstrip : strip_nul b = b).
  { apply (replace1_absent Byte.eqb byte_eqb_spec).
    eapply Forall_impl; [exact Hb|]. intros c [Hc _] ->. simpl in Hc. lia. }
  rewrite bytes_to_string_eq, Hstrip. f_equal.
  rewrite decode_with_eq, Hstrip by apply repr_quote_cases.
  rewrite repr_body_plain;
    [| apply repr_quote_cases | by apply plain_quote_absent | exact Hb].
  apply passes_no_backslash. apply Forall_fmap.
  eapply Forall_impl; [exact Hb|]. intros c [_ Hc] Heq. simpl in Heq.
  by apply Hc, ascii_of_byte_backslash.
Qed.

Lemma strip_nul_skip (a b : bytes) :
  strip_nul (a ++ x00 :: b) = strip_nul (a ++ b).
Proof.
  rewrite !strip_nul_app. reflexivity.
Qed.

(** X2. NUL bytes are ignored wherever they stand: inserting one into the
    input does not change the decoded text. *)
Theorem bytes_to_string_ignores_nul (a b : bytes) :
  bytes_to_string (PyBytes (a ++ x00 :: b)) = bytes_to_string (PyBytes (a ++ b)).
Proof.
  rewrite !bytes_to_string_eq. unfold decode_with. by rewrite strip_nul_skip.
Qed.

Lemma replace1_length {A} (eqb : A -> A -> bool) x (s : list A) :
  length (PyStr.replace eqb [x] [] s) <= length s.
Proof.
  induction s as [|c s IH]; [reflexivity|].
  rewrite replace1_cons, length_app.
  change (length (c :: s)) with (S (length s)).
  destruct (eqb x c);
    [change (length (@nil A)) with 0 | change (length [c]) with 1]; lia.
Qed.

Lemma replace2_length {A} (eqb : A -> A -> bool)
    (eqb_spec : forall a b, eqb a b = true <-> a = b) x y new (s : list A) :
  length new <= 2 -> length (PyStr.replace eqb [x; y] new s) <= length s.
Proof.
  intros Hnew.
  assert (H : forall n s, length s <= n ->
              length (PyStr.replace eqb [x; y] new s) <= length s).
  { clear s. induction n as [|n IH]; intros s Hlen.
    - destruct s; [reflexivity | simpl in Hlen; lia].
    - destruct s as [|c [|d s]]; [reflexivity | |].
      + by rewrite (replace2_single eqb).
      + simpl in Hlen.
        destruct (replace2_cases eqb eqb_spec x y new c d) as [[-> ->]|Hm].
        * rewrite (replace2_match eqb eqb_spec), length_app.
          specialize (IH s ltac:(lia)).
          change (length (x :: y :: s)) with (S (S (length s))). lia.
        * rewrite Hm. specialize (IH (d :: s) ltac:(simpl; lia)).
          change (length (c :: ?l)) with (S (length l)). lia. }
  apply (H (length s)). lia.
Qed.

Lemma repr_byte_length (quote c : byte) : length (repr_byte quote c) <= 4.
Proof.
  unfold repr_byte.
  repeat match goal with |- context [if ?b then _ else _] => destruct b end;
    simpl; lia.
Qed.

Lemma repr_body_length (quote : byte) (b : bytes) :
  length (repr_body quote b) <= 4 * length b.
Proof.
  induction b as [|c b IH]; [reflexivity|].
  change (repr_body quote (c :: b)) with (repr_byte quote c ++ repr_body quote b).
  rewrite length_app. pose proof (repr_byte_length quote c). simpl. lia.
Qed.

(** X3. The decoded text is at most four times as long as the input. *)
Theorem bytes_to_string_length (b : bytes) :
  exists out, bytes_to_string (PyBytes b) = Ok out /\
              length out <= 4 * length b.
Proof.
  rewrite bytes_to_string_eq. eexists. split; [reflexivity|].
  unfold decode_with, normalize, str_replace.
  etrans; [apply (replace2_length Ascii.eqb Ascii.eqb_eq); simpl; lia|].
  etrans; [apply (replace2_length Ascii.eqb Ascii.eqb_eq); simpl; lia|].
  etrans; [apply replace1_length|].
  etrans; [apply repr_body_length|].
  pose proof (replace1_length Byte.eqb x00 b) as Hs.
  unfold strip_nul, bytes_replace. lia.
Qed.

Lemma passes_backslash_n (s1 s2 : str) :
  lf_escapes_to_space (drop_cr_escapes (s1 ++ ["\"; "\"; "n"]%char ++ s2)) =
  lf_escapes_to_space (drop_cr_escapes s1) ++ ["\"; " "]%char
  ++ lf_escapes_to_space (drop_cr_escapes s2).
Proof.
  unfold drop_cr_escapes, lf_escapes_to_space.
  change (s1 ++ ["\"; "\"; "n"]%char ++ s2)
    with (s1 ++ "\"%char :: "\"%char :: "n"%char :: s2).
  rewrite str_barrier, !str_snd_ne, str_cons_ne by done.
  rewrite str_barrier, str_snd_ne, str_match by done.
  reflexivity.
Qed.

(** X4. A backslash followed by the letter n in the input is taken for
    the escape of a line feed: it comes out as a backslash and a space,
    and the letter is lost. *)
Theorem bytes_to_string_backslash_n (a b : bytes) :
  let quote := repr_quote (strip_nul (a ++ [x5c; x6e] ++ b)) in
  bytes_to_string (PyBytes (a ++ [x5c; x6e] ++ b)) =
  Ok (decode_with quote a ++ ["\"; " "]%char ++ decode_with quote b).
Proof.
  intros quote. rewrite bytes_to_string_eq. fold quote. f_equal.
  assert (Hq : quote = x27 \/ quote = x22) by apply repr_quote_cases.
  rewrite !decode_with_eq by done.
  rewrite strip_nul_app.
  change ([x5c; x6e] ++ b) with (x5c :: x6e :: b).
  rewrite !strip_nul_cons by done.
  rewrite repr_body_app.
  change (repr_body quote (x5c :: x6e :: strip_nul b))
    with (repr_byte quote x5c ++ repr_byte quote x6e ++ repr_body quote (strip_nul b)).
  replace (repr_byte quote x5c) with ["\"; "\"]%char
    by (by destruct Hq as [-> | ->]).
  replace (repr_byte quote x6e) with ["n"%char]
    by (by destruct Hq as [-> | ->]).
  apply passes_backslash_n.
Qed.

(** X5. A tab byte shows up as the two characters of its escape, a
    backslash and the letter t. *)
Theorem bytes_to_string_tab (a b : bytes) :
  let quote := repr_quote (strip_nul (a ++ x09 :: b)) in
  bytes_to_string (PyBytes (a ++ x09 :: b)) =
  Ok (decode_with quote a ++ ["\"; "t"]%char ++ decode_with quote b).
Proof.
  intros quote. rewrite bytes_to_string_eq. fold quote. f_equal.
  assert (Hq : quote = x27 \/ quote = x22) by apply repr_quote_cases.
  apply decode_assemble; [done | done |].
  intros s1 s2.
  replace (repr_byte quote x09) with ["\"; "t"]%char
    by (by destruct Hq as [-> | ->]).
  apply (passes_escape "t"%char [] s1 s2); [done | done |].
  by repeat constructor.
Qed.

(** ** The reporter and the display fields *)

Lemma return_code_returns (c : Command) : exists rc, return_code c = Ok rc.
Proof. unfold return_code. destruct (_process c); by eexists. Qed.

Section Reporter.
Context `{Builtins}.

(** X6. Whenever the display line can be formatted, the reporter appends
    exactly one record to the log and leaves the earlier records alone;
    the record is at level INFO exactly when the exit status is 0, and
    its message starts with the display line.  When the display line
    cannot be formatted, the reporter raises the same error. *)
Theorem write_log_one_record (c : Command) (LOG : list log_record) :
  (forall line, Command_str c = Ok line ->
     exists lvl msg,
       write_log c LOG = Ok (LOG ++ [(lvl, msg)]) /\
       (lvl = INFO <-> return_code c = Ok (Some 0%Z)) /\
       line `prefix_of` msg) /\
  (forall e, Command_str c = Raise e -> write_log c LOG = Raise e).
Proof.
  destruct (return_code_returns c) as [rc Hrc]. split.
  - intros line Hline. rewrite (write_log_eq c LOG line rc Hline Hrc), Hrc.
    destruct (decide (rc = Some 0%Z)) as [->|Hne].
    + exists INFO, line. by repeat split.
    + eexists ERROR, _. split; [reflexivity|]. split.
      * split; [discriminate | congruence].
      * by apply prefix_app_r.
  - intros e He. unfold write_log. rewrite Hrc. simpl.
    destruct (decide (rc = Some 0%Z)); by rewrite He.
Qed.
End Reporter.

(** X8. With both timestamps set [time_delta] returns a pair.  Its
    seconds and minutes are not negative when the end timestamp is not
    before the start timestamp; when it is, the seconds are negative and
    the minutes, being rounded down and not towards zero, are -1 or less.
    Below 2^33 seconds the minutes are the duration in microseconds
    divided by 60,000,000 and rounded down. *)
Theorem time_delta_floor (c : Command) (t0 t1 : datetime) :
  start_time c = Some t0 -> end_time c = Some t1 ->
  exists minutes seconds : Q,
    time_delta c = Ok (minutes, seconds) /\
    ((t0 <= t1)%Z -> (0 <= seconds)%Q /\ (0 <= minutes)%Q) /\
    ((t1 < t0)%Z -> (seconds < 0)%Q /\ (minutes <= -1)%Q) /\
    ((Z.abs (t1 - t0) < 2 ^ 33 * 1000000)%Z ->
     minutes = inject_Z ((t1 - t0) / 60000000)%Z).
Proof.
  intros H0 H1. eexists _, _. split; [by apply time_delta_eq|].
  unfold divmod_fst, total_seconds. set (d := (t1 - t0)%Z).
  split; [|split].
  - intros Hle.
    assert (Hs : (0 <= round64 (d # 1000000))%Q).
    { destruct (Z.eq_dec d 0%Z) as [->|Hne].
      - by rewrite round64_zero.
      - apply Qlt_le_weak, round64_pos. unfold Qlt. simpl. lia. }
    split; [exact Hs|].
    change 0%Q with (inject_Z 0). rewrite <- Zle_Qle.
    rewrite <- (Qfloor_Z 0). apply Qfloor_resp_le.
    change (inject_Z 0) with 0%Q.
    apply Qle_shift_div_l; [reflexivity | lra].
  - intros Hlt.
    assert (Hs : (round64 (d # 1000000) < 0)%Q).
    { apply round64_neg. unfold Qlt. simpl. lia. }
    split; [exact Hs|].
    pose proof (Qfloor_le (round64 (d # 1000000) / 60)) as Hf.
    assert (Hq : (round64 (d # 1000000) / 60 < 0)%Q)
      by (apply Qlt_shift_div_r; [reflexivity | lra]).
    assert (Hz : (inject_Z (Qfloor (round64 (d # 1000000) / 60)) < inject_Z 0)%Q)
      by (change (inject_Z 0) with 0%Q; lra).
    rewrite <- Zlt_Qlt in Hz.
    change (-1)%Q with (inject_Z (-1)). rewrite <- Zle_Qle. lia.
  - intros Hd. by rewrite minutes_exact.
Qed.

(** ** Units under the events of the loop *)

Lemma cmd_process_exited rc c : cmd (process_exited rc c) = cmd c.
Proof. unfold process_exited. by destruct (_process c). Qed.

Lemma gather_finish_task i c outcome L s r :
  gather s = Some r -> gather (finish_task i c outcome L s) = Some r.
Proof. intros Hr. unfold finish_task, settle. simpl. by rewrite Hr. Qed.

Section Events.
Context `{Builtins}.

Lemma func_finish_cmd c streams now L c' r :
  func_finish c streams now L = (c', r) -> cmd c' = cmd c.
Proof.
  unfold func_finish.
  destruct (parse_streams_on_complete streams) as [[out err]|e]; by intros [= <- _].
Qed.

(** What a step can do: it touches one unit, or it begins the teardown.
    A unit it touches was not finished, unless the step is the exit of
    the process of a cancelled unit; and a step never changes an outcome
    [gather] already has. *)
Lemma step_inversion (ev : event) (s s' : loop) :
  step ev s = Some s' ->
  match event_unit ev with
  | Some i =>
      exists t t',
        tasks s !! i = Some t /\
        tasks s' = <[i := t']> (tasks s) /\
        cmd (task_cmd t') = cmd (task_cmd t) /\
        (pc_done (task_pc t) = true ->
         task_pc t = PcCancelled /\
         (exists p, _process (task_cmd t) = Some p /\ Process_returncode p = None) /\
         exists rc, t' = mkTask (process_exited rc (task_cmd t)) PcCancelled) /\
        (task_pc t' = PcReturned ->
         exists rc out err now, ev = EvExited i rc out err now)
  | None => tasks s' = tasks s /\ LOG s' = LOG s /\ is_Some (gather s)
  end /\
  (forall r, gather s = Some r -> gather s' = Some r).
Proof.
  intros Hstep. pose proof (step_enabled ev s s' Hstep) as Hen.
  destruct ev as [i now|i p|i|i rc|i rc out err now| |i]; simpl.
  - destruct Hen as (Hc & t & Ht & Hpc).
    rewrite (step_start s i t now Hc Ht Hpc) in Hstep. injection Hstep as <-.
    split; [|done]. eexists t, _. rewrite Hpc. by repeat split.
  - destruct Hen as (Hc & t & Ht & Hpc).
    rewrite (step_spawned s i t p Hc Ht Hpc) in Hstep. injection Hstep as <-.
    split; [|done]. eexists t, _. rewrite Hpc. by repeat split.
  - destruct Hen as (Hc & t & Ht & Hpc).
    rewrite (step_spawn_failed s i t Hc Ht Hpc) in Hstep. injection Hstep as <-.
    split.
    + eexists t, _. rewrite Hpc. by repeat split.
    + intros r Hr. by apply gather_finish_task.
  - destruct Hen as (t & p & Ht & Hpc & Hp & Hrc).
    rewrite (step_process_exited s i t p rc Ht Hpc Hp Hrc) in Hstep.
    injection Hstep as <-.
    split; [|done]. eexists t, _. split; [exact Ht|]. split; [reflexivity|].
    split; [apply cmd_process_exited|]. simpl. split.
    + intros Hd. destruct Hpc as [Hpc|Hpc]; rewrite Hpc in *; [discriminate|].
      split; [reflexivity|]. split; [by exists p | by exists rc].
    + intros Hr. destruct Hpc as [Hpc|Hpc]; congruence.
  - destruct Hen as (Hc & t & Ht & Hpc & Hag).
    unfold step in Hstep. rewrite Hc, Ht in Hstep. simpl in Hstep.
    rewrite Hpc, Hag in Hstep.
    destruct (func_finish _ _ _ _) as [c' [L|e]] eqn:Hfin;
      injection Hstep as <-;
      apply func_finish_cmd in Hfin; rewrite cmd_process_exited in Hfin.
    + split; [|by intros r Hr; apply gather_finish_task].
      eexists t, _. rewrite Hpc. repeat split; try done.
      intros _. by eexists _, _, _, _.
    + split; [|by intros r Hr; apply gather_finish_task].
      eexists t, _. rewrite Hpc. by repeat split.
  - destruct Hen as [Hc Hg].
    rewrite (step_shutdown s Hc Hg) in Hstep. by injection Hstep as <-.
  - destruct Hen as (Hc & t & Ht & Hd).
    rewrite (step_cancelled s i t Hc Ht Hd) in Hstep. injection Hstep as <-.
    split; [|done]. eexists t, _. split; [exact Ht|]. split; [reflexivity|].
    unfold cancel. rewrite Hd. simpl. split; [reflexivity|]. by split.
Qed.

Lemma step_frame (ev : event) (s s' : loop) (i j : nat) :
  step ev s = Some s' -> event_unit ev = Some i -> j <> i ->
  tasks s' !! j = tasks s !! j.
Proof.
  intros Hstep Hev Hne.
  destruct (step_inversion ev s s' Hstep) as (Hcase & _).
  rewrite Hev in Hcase. destruct Hcase as (t & t' & _ & -> & _).
  by apply list_lookup_insert_ne.
Qed.

Lemma step_done_stays (ev : event) (s s' : loop) (j : nat) (t : task) :
  step ev s = Some s' -> tasks s !! j = Some t -> pc_done (task_pc t) = true ->
  tasks s' !! j = Some t \/
  (task_pc t = PcCancelled /\
   (exists p, _process (task_cmd t) = Some p /\ Process_returncode p = None) /\
   exists rc,
     tasks s' !! j = Some (mkTask (process_exited rc (task_cmd t)) PcCancelled)).
Proof.
  intros Hstep Ht Hd.
  destruct (step_inversion ev s s' Hstep) as (Hcase & _).
  destruct (event_unit ev) as [i|].
  - destruct Hcase as (ti & t' & Hti & -> & _ & Hdone & _).
    destruct (decide (j = i)) as [->|Hne].
    + assert (ti = t) as -> by congruence.
      destruct (Hdone Hd) as (Hpc & Hp & rc & ->).
      right. split; [exact Hpc|]. split; [exact Hp|]. exists rc.
      apply list_lookup_insert_eq. by apply (lookup_lt_Some _ _ _ Ht).
    + left. by rewrite list_lookup_insert_ne.
  - destruct Hcase as (-> & _). by left.
Qed.

Lemma exec_done_stays (evs : list event) (s s' : loop) (j : nat) (t : task) :
  exec evs s = Some s' -> tasks s !! j = Some t -> pc_done (task_pc t) = true ->
  tasks s' !! j = Some t \/
  (task_pc t = PcCancelled /\
   (exists p, _process (task_cmd t) = Some p /\ Process_returncode p = None) /\
   exists rc,
     tasks s' !! j = Some (mkTask (process_exited rc (task_cmd t)) PcCancelled)).
Proof.
  revert s t. induction evs as [|ev evs IH]; intros s t Hexec Ht Hd;
    simpl in Hexec.
  - injection Hexec as <-. by left.
  - destruct (step ev s) as [s1|] eqn:Hstep; [|discriminate]. simpl in Hexec.
    destruct (step_done_stays ev s s1 j t Hstep Ht Hd)
      as [Ht1|(Hpc & (p & Hp & Hrc) & rc & Ht1)].
    + by apply (IH s1).
    + right. split; [exact Hpc|]. split; [by exists p|]. exists rc.
      destruct (IH s1 _ Hexec Ht1 eq_refl) as [Hs'|(_ & (p' & Hp' & Hrc') & _)];
        [exact Hs'|].
      simpl in Hp'. unfold process_exited in Hp'. rewrite Hp in Hp'.
      simpl in Hp'. injection Hp' as <-. discriminate Hrc'.
Qed.

(** X9. The units of a batch do not interfere: an event of one unit
    leaves every other unit exactly as it was. *)
Theorem units_do_not_interfere (ev : event) (s s' : loop) (i j : nat) :
  step ev s = Some s' -> event_unit ev = Some i -> j <> i ->
  tasks s' !! j = tasks s !! j.
Proof. apply step_frame. Qed.

(** X10. There is no way back: once the coroutine of a unit has finished
    (returned, raised or been cancelled), no later event resumes it or
    changes an attribute of the unit, and the start of the teardown of
    the loop leaves it alone as well.  One thing can still happen to a
    unit that was cancelled while its process was running: the process
    exits, and its exit status shows in the process object the unit
    holds. *)
Theorem finished_units_are_final (evs : list event) (s s' : loop)
    (j : nat) (t : task) :
  exec evs s = Some s' -> tasks s !! j = Some t -> pc_done (task_pc t) = true ->
  tasks s' !! j = Some t \/
  (task_pc t = PcCancelled /\
   (exists p, _process (task_cmd t) = Some p /\ Process_returncode p = None) /\
   exists rc,
     tasks s' !! j = Some (mkTask (process_exited rc (task_cmd t)) PcCancelled)).
Proof. apply exec_done_stays. Qed.

(** X11. The outcome of the batch call is settled once: after [gather]
    has resolved, with a return or with the error of the first unit that
    raised, no later event (a further failure included) changes it. *)
Theorem gather_outcome_is_final (evs : list event) (s s' : loop)
    (r : result ()) :
  exec evs s = Some s' -> gather s = Some r -> gather s' = Some r.
Proof.
  revert s. induction evs as [|ev evs IH]; intros s Hexec Hg; simpl in Hexec.
  - by injection Hexec as <-.
  - destruct (step ev s) as [s1|] eqn:Hstep; [|discriminate]. simpl in Hexec.
    apply (IH s1 Hexec).
    destruct (step_inversion ev s s1 Hstep) as (_ & Hmono). by apply Hmono.
Qed.

Lemma step_cmds (ev : event) (s s' : loop) :
  step ev s = Some s' ->
  (fun t => cmd (task_cmd t)) <$> tasks s' = (fun t => cmd (task_cmd t)) <$> tasks s.
Proof.
  intros Hstep. destruct (step_inversion ev s s' Hstep) as (Hcase & _).
  destruct (event_unit ev) as [i|].
  - destruct Hcase as (t & t' & Ht & -> & Hcmd & _).
    rewrite list_fmap_insert, Hcmd. apply list_insert_id.
    by rewrite list_lookup_fmap, Ht.
  - by destruct Hcase as (-> & _).
Qed.

(** X12. A run never changes the command lines: in every state of a run
    the batch holds one unit per line handed to [run], in the same order
    and with its command line as given. *)
Theorem command_lines_are_kept (lines : list str) (evs : list event) (s : loop) :
  exec evs (run_init lines) = Some s ->
  (fun t => cmd (task_cmd t)) <$> tasks s = lines.
Proof.
  assert (Hgen : forall evs s0 s1, exec evs s0 = Some s1 ->
            (fun t => cmd (task_cmd t)) <$> tasks s1 =
            (fun t => cmd (task_cmd t)) <$> tasks s0).
  { clear. intros evs. induction evs as [|ev evs IH]; intros s0 s1 Hexec;
      simpl in Hexec.
    - by injection Hexec as <-.
    - destruct (step ev s0) as [s2|] eqn:Hstep; [|discriminate]. simpl in Hexec.
      rewrite (IH s2 s1 Hexec). by apply (step_cmds ev). }
  intros Hexec. rewrite (Hgen evs _ _ Hexec). unfold run_init. simpl.
  rewrite <- list_fmap_compose. clear. induction lines as [|l lines IH]; [done|].
  rewrite fmap_cons. by rewrite IH.
Qed.

(** X13. A unit one of whose streams is not captured through a pipe (it
    was constructed with a target other than [PIPE] for stdout or for
    stderr) cannot complete: when its process has exited, [communicate]
    hands back [None] for that stream, decoding it raises AttributeError,
    the unit keeps its exit status but gets no decoded output and no end
    timestamp, nothing is logged, and a pending [gather] raises. *)
Theorem redirected_unit_raises (s : loop) (i : nat) (t : task) (rc : Z)
    (out err : bytes) (now : datetime) :
  closed s = false -> tasks s !! i = Some t -> task_pc t = PcAwaitExit ->
  exit_status_agrees rc (task_cmd t) = true ->
  stream_arg (_stdout_target (task_cmd t)) <> PIPE \/
  stream_arg (_stderr_target (task_cmd t)) <> PIPE ->
  exists s',
    step (EvExited i rc out err now) s = Some s' /\
    tasks s' !! i =
      Some (mkTask (process_exited rc (task_cmd t)) (PcRaised AttributeError)) /\
    LOG s' = LOG s /\
    (gather s = None -> gather s' = Some (Raise AttributeError)).
Proof.
  intros Hc Ht Hpc Hag Htarget.
  assert (Hto : _stdout_target (process_exited rc (task_cmd t))
                = _stdout_target (task_cmd t))
    by (unfold process_exited; by destruct (_process (task_cmd t))).
  assert (Hte : _stderr_target (process_exited rc (task_cmd t))
                = _stderr_target (task_cmd t))
    by (unfold process_exited; by destruct (_process (task_cmd t))).
  assert (Hfin : func_finish (process_exited rc (task_cmd t))
                   (communicate (process_exited rc (task_cmd t)) out err) now (LOG s)
                 = (process_exited rc (task_cmd t), Raise AttributeError)).
  { unfold func_finish, parse_streams_on_complete, communicate.
    rewrite Hto, Hte. simpl.
    destruct (stream_arg (_stdout_target (task_cmd t))) eqn:Ho;
      try reflexivity.
    destruct (bytes_to_string (PyBytes out)) as [so|e] eqn:Hso;
      [|discriminate Hso].
    simpl.
    destruct (stream_arg (_stderr_target (task_cmd t))) eqn:He;
      try reflexivity.
    by destruct Htarget. }
  eexists. split.
  - unfold step. rewrite Hc, Ht. simpl. rewrite Hpc, Hag, Hfin. reflexivity.
  - simpl. split; [|split; [reflexivity|]].
    + apply list_lookup_insert_eq. by apply (lookup_lt_Some _ _ _ Ht).
    + by intros ->.
Qed.
End Events.

(** ** What a run records and logs *)



Section Records.
Context `{Builtins}.

(** The end of [func] for a unit that [run] built, spelled out. *)
Lemma func_finish_piped_eq (c : Command) (rc : Z) (out err : bytes)
    (now : datetime) (L : list log_record) :
  piped c -> Awaiting c ->
  exists so se msg,
    bytes_to_string (PyBytes out) = Ok so /\
    bytes_to_string (PyBytes err) = Ok se /\
    func_finish (process_exited rc c)
      (communicate (process_exited rc c) out err) now L =
    (completed_unit c rc so se now, Ok (L ++ [(exit_level rc, msg)])).
Proof.
  intros [Ho He] ([p Hp] & Hout & Herr & Hstart & Hend).
  destruct (bytes_to_string (PyBytes out)) as [so|] eqn:Hso; [|discriminate].
  destruct (bytes_to_string (PyBytes err)) as [se|] eqn:Hse; [|discriminate].
  set (c2 := completed_unit c rc so se now).
  assert (Hc2 : Completed c2).
  { unfold c2, completed_unit, process_exited. rewrite Hp.
    split; [by exists (mkProcess (Process_pid p) (Some rc)), rc|].
    repeat split; by eauto. }
  destruct (Command_str_completed c2 Hc2) as [line Hline].
  assert (Hcode : return_code c2 = Ok (Some rc)).
  { unfold c2, completed_unit, process_exited. by rewrite Hp. }
  exists so, se.
  exists (if decide (rc = 0%Z) then line
          else line ++ str_opt_str (stderr c2) ++ str_opt_str (stdout c2)).
  split; [reflexivity|]. split; [reflexivity|].
  unfold func_finish, parse_streams_on_complete, communicate.
  assert (Hto : _stdout_target (process_exited rc c) = None)
    by (unfold process_exited; by rewrite Hp).
  assert (Hte : _stderr_target (process_exited rc c) = None)
    by (unfold process_exited; by rewrite Hp).
  rewrite Hto, Hte. simpl fst. simpl snd. rewrite Hso, Hse. simpl.
  fold (completed_unit c rc so se now). fold c2.
  rewrite (write_log_eq c2 L line (Some rc) Hline Hcode).
  unfold exit_level.
  destruct (decide (rc = 0%Z)) as [->|Hne].
  - by rewrite decide_True.
  - by rewrite decide_False by congruence.
Qed.

Lemma step_exited_eq (s s' : loop) (i : nat) (rc : Z) (out err : bytes)
    (now : datetime) :
  loop_inv s -> step (EvExited i rc out err now) s = Some s' ->
  exists t so se msg,
    tasks s !! i = Some t /\ task_pc t = PcAwaitExit /\
    bytes_to_string (PyBytes out) = Ok so /\
    bytes_to_string (PyBytes err) = Ok se /\
    s' = finish_task i (completed_unit (task_cmd t) rc so se now) (Ok ())
           (LOG s ++ [(exit_level rc, msg)]) s.
Proof.
  intros [I1 _] Hstep.
  destruct (step_enabled _ _ _ Hstep) as (Hc & t & Ht & Hpc & Hag).
  destruct (Forall_lookup_1 _ _ _ _ I1 Ht) as [Hpiped Hst]. rewrite Hpc in Hst.
  destruct (func_finish_piped_eq (task_cmd t) rc out err now (LOG s) Hpiped Hst)
    as (so & se & msg & Hso & Hse & Hfin).
  exists t, so, se, msg. repeat split; try done.
  unfold step in Hstep. rewrite Hc, Ht in Hstep. simpl in Hstep.
  rewrite Hpc, Hag, Hfin in Hstep. by injection Hstep as <-.
Qed.




End Records.

Section Completions.
Context `{Builtins}.

Lemma pcs_lookup_task (s : loop) j t :
  tasks s !! j = Some t -> pcs s !! j = Some (task_pc t).
Proof. intros Ht. unfold pcs. by rewrite list_lookup_fmap, Ht. Qed.

Lemma step_returned_stays (ev : event) (s s1 : loop) j :
  step ev s = Some s1 -> pcs s !! j = Some PcReturned ->
  pcs s1 !! j = Some PcReturned.
Proof.
  intros Hstep (t & Ht & Hpc)%pcs_lookup.
  rewrite (pcs_lookup_task s1 j t); [by rewrite Hpc|].
  destruct (step_done_stays ev s s1 j t Hstep Ht) as [Hs1|[Hc _]];
    [by rewrite Hpc | exact Hs1 | congruence].
Qed.

Lemma exec_returned_stays (evs : list event) (s s' : loop) j :
  exec evs s = Some s' -> pcs s !! j = Some PcReturned ->
  pcs s' !! j = Some PcReturned.
Proof.
  revert s. induction evs as [|ev evs IH]; intros s Hexec Hj; simpl in Hexec.
  - by injection Hexec as <-.
  - destruct (step ev s) as [s1|] eqn:Hstep; [|discriminate]. simpl in Hexec.
    apply (IH s1 Hexec). by apply (step_returned_stays ev s).
Qed.

Lemma step_returned_origin (ev : event) (s s1 : loop) j :
  step ev s = Some s1 -> pcs s1 !! j = Some PcReturned ->
  pcs s !! j = Some PcReturned \/ completion_order [ev] = [j].
Proof.
  intros Hstep (t1 & Ht1 & Hpc1)%pcs_lookup.
  destruct (step_inversion ev s s1 Hstep) as (Hcase & _).
  destruct (event_unit ev) as [i|] eqn:Hev.
  - destruct Hcase as (t & t' & Ht & Htasks & _ & _ & Hret).
    rewrite Htasks in Ht1. destruct (decide (j = i)) as [->|Hne].
    + rewrite list_lookup_insert_eq in Ht1 by (by apply (lookup_lt_Some _ _ _ Ht)).
      injection Ht1 as <-. destruct (Hret Hpc1) as (rc & out & err & now & ->).
      by right.
    + rewrite list_lookup_insert_ne in Ht1 by done.
      left. by rewrite (pcs_lookup_task s j t1), Hpc1.
  - destruct Hcase as (Htasks & _). rewrite Htasks in Ht1.
    left. by rewrite (pcs_lookup_task s j t1 Ht1), Hpc1.
Qed.

Lemma step_exit_returns (s s1 : loop) i rc out err now :
  loop_inv s -> step (EvExited i rc out err now) s = Some s1 ->
  pcs s !! i = Some PcAwaitExit /\ pcs s1 !! i = Some PcReturned.
Proof.
  intros Hinv Hstep.
  destruct (step_exited_eq s s1 i rc out err now Hinv Hstep)
    as (t & so & se & msg & Ht & Hpc & _ & _ & ->).
  split; [by rewrite (pcs_lookup_task s i t Ht), Hpc|].
  rewrite pcs_finish_task. apply list_lookup_insert_eq.
  unfold pcs. rewrite length_fmap. by apply (lookup_lt_Some _ _ _ Ht).
Qed.

Lemma exec_completions (evs : list event) (s s' : loop) :
  loop_inv s -> exec evs s = Some s' ->
  NoDup (completion_order evs) /\
  (forall i, i ∈ completion_order evs ->
     pcs s !! i <> Some PcReturned /\ pcs s' !! i = Some PcReturned) /\
  (forall i, pcs s' !! i = Some PcReturned ->
     pcs s !! i = Some PcReturned \/ i ∈ completion_order evs).
Proof.
  revert s. induction evs as [|ev evs IH]; intros s Hinv Hexec; simpl in Hexec.
  - injection Hexec as <-. split; [constructor|]. split; [|by left].
    intros i Hi. by inversion Hi.
  - destruct (step ev s) as [s1|] eqn:Hstep; [|discriminate]. simpl in Hexec.
    destruct (IH s1 (step_inv ev s s1 Hinv Hstep) Hexec) as (Hnd & Hin & Hout).
    assert (Hold : forall j, j ∈ completion_order evs ->
              pcs s !! j <> Some PcReturned /\ pcs s' !! j = Some PcReturned).
    { intros j Hj. destruct (Hin j Hj) as [Hn1 Hr]. split; [|exact Hr].
      intros Hs. apply Hn1. by apply (step_returned_stays ev s). }
    rewrite completion_order_cons.
    destruct ev as [i now|i p|i|i rc|i rc out err now| |i]; simpl;
      try (split; [exact Hnd|]; split; [exact Hold|];
           intros j Hj; destruct (Hout j Hj) as [Hj1|Hj1]; [|by right];
           destruct (step_returned_origin _ s s1 j Hstep Hj1) as [?|Hco];
           [by left | discriminate Hco]).
    destruct (step_exit_returns s s1 i rc out err now Hinv Hstep) as [Hwas Hnow].
    split; [|split].
    + apply NoDup_cons. split; [|exact Hnd].
      intros Hi. destruct (Hin i Hi) as [Hn1 _]. contradiction.
    + intros j [->|Hj]%elem_of_cons; [|by apply Hold].
      split; [by rewrite Hwas|]. by apply (exec_returned_stays evs s1).
    + intros j Hj. destruct (Hout j Hj) as [Hj1|Hj1]; [|by right; right].
      destruct (step_returned_origin _ s s1 j Hstep Hj1) as [?|Hco]; [by left|].
      right. injection Hco as ->. by left.
Qed.

(** X16. A unit completes at most once in a run: the exit events of a run
    name pairwise distinct units, and these are exactly the units whose
    coroutine has returned in the state the run ends in. *)
Theorem units_complete_once (lines : list str) (evs : list event) (s : loop) :
  exec evs (run_init lines) = Some s ->
  NoDup (completion_order evs) /\
  (forall i, i ∈ completion_order evs <-> pcs s !! i = Some PcReturned).
Proof.
  intros Hexec.
  destruct (exec_completions evs _ s (run_init_inv lines) Hexec)
    as (Hnd & Hin & Hout).
  split; [exact Hnd|]. intros i. split.
  - intros Hi. by destruct (Hin i Hi).
  - intros Hi. destruct (Hout i Hi) as [Hinit|?]; [|done].
    rewrite pcs_run_init in Hinit. apply lookup_replicate in Hinit as [? _].
    discriminate.
Qed.
End Completions.

(** ** The further properties on concrete units and runs *)

Lemma bytes_to_string_plain_text_witness :
  Forall (fun c => (32 <= Byte.to_N c <= 126)%N /\ c <> x5c)
    (bytes_of_string "sfc /scannow") /\
  ((x27 ∉ bytes_of_string "sfc /scannow") \/ (x22 ∉ bytes_of_string "sfc /scannow")) /\
  bytes_to_string (PyBytes (bytes_of_string "sfc /scannow")) =
  Ok (ascii_of_byte <$> bytes_of_string "sfc /scannow").
Proof.
  assert (Hb : Forall (fun c => (32 <= Byte.to_N c <= 126)%N /\ c <> x5c)
                 (bytes_of_string "sfc /scannow")).
  { repeat constructor; simpl; try lia; discriminate. }
  assert (Hq : (x27 ∉ bytes_of_string "sfc /scannow") \/
               (x22 ∉ bytes_of_string "sfc /scannow")).
  { left. intros Hin.
    repeat (apply elem_of_cons in Hin as [Hin|Hin]; [discriminate|]).
    by inversion Hin. }
  split; [exact Hb|]. split; [exact Hq|].
  exact (bytes_to_string_plain_text _ Hb Hq).
Defined.

Lemma unit_running_str : Command_str unit_running = Raise TypeError.
Proof. reflexivity. Qed.

Lemma write_log_one_record_witness :
  (exists line,
     Command_str unit_failed = Ok line /\
     exists lvl msg,
       write_log unit_failed [] = Ok ([] ++ [(lvl, msg)]) /\
       (lvl = INFO <-> return_code unit_failed = Ok (Some 0%Z)) /\
       line `prefix_of` msg) /\
  (Command_str unit_running = Raise TypeError /\
   write_log unit_running [] = Raise TypeError).
Proof.
  split.
  - destruct (Command_str unit_failed) as [line|e] eqn:Hline;
      [|exfalso; vm_compute in Hline; discriminate Hline].
    exists line. split; [reflexivity|].
    exact (proj1 (write_log_one_record unit_failed []) line Hline).
  - split; [exact unit_running_str|].
    exact (proj2 (write_log_one_record unit_running []) TypeError unit_running_str).
Defined.

Lemma time_delta_floor_witness :
  start_time unit_failed = Some 1000000%Z /\
  end_time unit_failed = Some 62500000%Z /\
  exists minutes seconds : Q,
    time_delta unit_failed = Ok (minutes, seconds) /\
    (0 <= seconds)%Q /\ (0 <= minutes)%Q /\ minutes = inject_Z 1.
Proof.
  split; [reflexivity|]. split; [reflexivity|].
  destruct (time_delta_floor unit_failed 1000000%Z 62500000%Z eq_refl eq_refl)
    as (minutes & seconds & Htd & Hpos & _ & Hexact).
  exists minutes, seconds. split; [exact Htd|].
  split; [apply Hpos; lia|]. split; [apply Hpos; lia|].
  apply Hexact. vm_compute. reflexivity.
Defined.

Lemma units_do_not_interfere_witness :
  exists s s',
    exec fourth_spawn_pending (run_init main_lines) = Some s /\
    step (EvSpawned 3 4003%Z) s = Some s' /\
    event_unit (EvSpawned 3 4003%Z) = Some 3 /\ 0 <> 3 /\
    tasks s' !! 0 = tasks s !! 0.
Proof.
  eexists _, _.
  split; [vm_compute; reflexivity|]. split; [vm_compute; reflexivity|].
  split; [reflexivity|]. split; [lia|].
  refine (units_do_not_interfere (EvSpawned 3 4003%Z) _ _ 3 0 _ eq_refl _);
    [vm_compute; reflexivity | lia].
Defined.

Lemma finished_units_are_final_witness :
  exists s s' t3 t0,
    exec (fourth_spawn_fails ++ [EvSpawned 0 4000%Z; EvShutdown; EvCancelled 0])
      (run_init main_lines) = Some s /\
    exec [EvCancelled 1; EvProcessExited 0 1%Z] s = Some s' /\
    (tasks s !! 3 = Some t3 /\ pc_done (task_pc t3) = true /\
     tasks s' !! 3 = Some t3) /\
    (tasks s !! 0 = Some t0 /\ pc_done (task_pc t0) = true /\
     tasks s' !! 0 = Some (mkTask (process_exited 1%Z (task_cmd t0)) PcCancelled)).
Proof.
  eexists _, _, _, _.
  split; [vm_compute; reflexivity|].
  match goal with
  | |- exec ?e ?s0 = Some _ /\ _ =>
      assert (Hexec : exec e s0 = Some _) by (vm_compute; reflexivity)
  end.
  split; [exact Hexec|]. split.
  - split; [reflexivity|]. split; [reflexivity|].
    destruct (finished_units_are_final _ _ _ 3 _ Hexec eq_refl eq_refl)
      as [H3|[H3 _]]; [exact H3 | discriminate H3].
  - split; [reflexivity|]. split; [reflexivity|]. reflexivity.
Defined.

Lemma gather_outcome_is_final_witness :
  exists s s',
    exec fourth_spawn_fails (run_init main_lines) = Some s /\
    exec [EvSpawned 0 4000%Z; EvSpawnFailed 1; EvShutdown] s = Some s' /\
    gather s = Some (Raise SpawnError) /\ gather s' = Some (Raise SpawnError).
Proof.
  eexists _, _.
  split; [vm_compute; reflexivity|].
  match goal with
  | |- exec ?e ?s0 = Some _ /\ _ =>
      assert (Hexec : exec e s0 = Some _) by (vm_compute; reflexivity)
  end.
  split; [exact Hexec|]. split; [reflexivity|].
  exact (gather_outcome_is_final _ _ _ _ Hexec eq_refl).
Defined.

Lemma command_lines_are_kept_witness :
  exists s,
    exec two_exits (run_init main_lines) = Some s /\
    (fun t => cmd (task_cmd t)) <$> tasks s = main_lines.
Proof.
  eexists. split; [vm_compute; reflexivity|].
  refine (command_lines_are_kept main_lines two_exits _ _).
  vm_compute; reflexivity.
Defined.

Lemma redirected_unit_raises_witness :
  exists t,
    closed redirected_loop = false /\ tasks redirected_loop !! 0 = Some t /\
    task_pc t = PcAwaitExit /\
    exit_status_agrees 0%Z (task_cmd t) = true /\
    (stream_arg (_stdout_target (task_cmd t)) <> PIPE \/
     stream_arg (_stderr_target (task_cmd t)) <> PIPE) /\
    exists s',
      step (EvExited 0 0%Z [x6f; x6b] [] 5000000%Z) redirected_loop = Some s' /\
      tasks s' !! 0 =
        Some (mkTask (process_exited 0 (task_cmd t)) (PcRaised AttributeError)) /\
      LOG s' = LOG redirected_loop /\
      (gather redirected_loop = None -> gather s' = Some (Raise AttributeError)).
Proof.
  eexists. split; [reflexivity|]. split; [reflexivity|]. split; [reflexivity|].
  split; [reflexivity|].
  assert (Ht : stream_arg (Some DEVNULL) <> PIPE \/ stream_arg None <> PIPE)
    by (left; discriminate).
  split; [exact Ht|].
  exact (redirected_unit_raises redirected_loop 0 _ 0%Z [x6f; x6b] [] 5000000%Z
           eq_refl eq_refl eq_refl eq_refl Ht).
Defined.



Lemma units_complete_once_witness :
  exists s,
    exec two_exits (run_init main_lines) = Some s /\
    NoDup (completion_order two_exits) /\
    (forall i, i ∈ completion_order two_exits <-> pcs s !! i = Some PcReturned).
Proof.
  eexists. split; [vm_compute; reflexivity|].
  refine (units_complete_once main_lines two_exits _ _).
  vm_compute; reflexivity.
Defined.

(** ** Display of the units of a run *)

Section DisplayOfUnits.
Context `{Builtins}.

(** X17. How the units of a run format.  A unit that has not been
    spawned, whose spawn failed, or that was cancelled before its spawn
    returned shows the placeholder line; a unit whose process is running
    (also one cancelled in that state) cannot be formatted and raises
    TypeError; a unit whose coroutine has returned formats to a line. *)
Theorem display_by_state (lines : list str) (evs : list event) (s : loop)
    (i : nat) (t : task) :
  exec evs (run_init lines) = Some s -> tasks s !! i = Some t ->
  (_process (task_cmd t) = None ->
     Command_str (task_cmd t) =
     Ok (format_str (cmd (task_cmd t)) 60 ++ lit " [None] [None]")) /\
  (task_pc t = PcInit \/ task_pc t = PcAwaitSpawn \/
   (exists e, task_pc t = PcRaised e) -> _process (task_cmd t) = None) /\
  (task_pc t = PcAwaitExit \/
   (task_pc t = PcCancelled /\ is_Some (_process (task_cmd t))) ->
     Command_str (task_cmd t) = Raise TypeError) /\
  (task_pc t = PcReturned -> exists line, Command_str (task_cmd t) = Ok line).
Proof.
  intros Hexec Ht.
  destruct (reachable_task_inv lines evs s i t Hexec Ht) as [_ Hst].
  assert (Hrun : Awaiting (task_cmd t) -> Command_str (task_cmd t) = Raise TypeError).
  { intros ([p Hp] & _ & _ & _ & He). apply (Command_str_running _ p Hp).
    by right; right. }
  split; [apply Command_str_unspawned|]. split; [|split].
  - intros [Hpc|[Hpc|[e Hpc]]]; rewrite Hpc in Hst.
    + by destruct Hst.
    + by destruct Hst as [[? _] _].
    + by destruct Hst as [_ [? _]].
  - intros [Hpc|[Hpc [p Hp]]]; rewrite Hpc in Hst; [by apply Hrun|].
    destruct Hst as [[Hn _]|Hst]; [congruence | by apply Hrun].
  - intros Hpc. rewrite Hpc in Hst. by apply Command_str_completed.
Qed.
End DisplayOfUnits.

Lemma display_by_state_witness :
  exists s t,
    exec fourth_spawn_fails (run_init main_lines) = Some s /\
    tasks s !! 3 = Some t /\
    (task_pc t = PcInit \/ task_pc t = PcAwaitSpawn \/
     (exists e, task_pc t = PcRaised e)) /\
    _process (task_cmd t) = None /\
    Command_str (task_cmd t) =
    Ok (format_str (cmd (task_cmd t)) 60 ++ lit " [None] [None]").
Proof.
  eexists _, _.
  assert (Hexec : exec fourth_spawn_fails (run_init main_lines) = Some _)
    by (vm_compute; reflexivity).
  split; [exact Hexec|]. split; [reflexivity|].
  assert (Hpc : PcRaised SpawnError = PcInit \/ PcRaised SpawnError = PcAwaitSpawn \/
                (exists e, PcRaised SpawnError = PcRaised e))
    by (right; right; by eexists).
  split; [exact Hpc|].
  pose proof (display_by_state main_lines fourth_spawn_fails _ 3 _ Hexec eq_refl)
    as (Hline & Hproc & _).
  split; [exact (Hproc Hpc) | exact (Hline (Hproc Hpc))].
Defined.
